(** * imagecropper: the crop compositing engine and the per-image edit state

    A shallow embedding of [src/components/ImageEditor.tsx],
    [src/pages/ImageProcessor.tsx] and [src/components/DownloadManager.tsx].

    JavaScript numbers are modelled as exact rationals extended with
    [Infinity], [-Infinity] and [NaN]: the special values follow IEEE 754
    (division by zero, [Math.min]/[Math.max] and comparisons on [NaN]),
    binary64 rounding is not modelled and every zero is the positive zero. *)

From Stdlib Require Import String Bool ZArith QArith Qminmax Qround Lqa Lia List.
Import ListNotations.
Local Open Scope Q_scope.

(** ** JavaScript numbers *)

Module JS.

Inductive num : Type :=
| Num (q : Q)
| PInf
| NInf
| NaN.

Definition ofZ (n : Z) : num := Num (inject_Z n).

(** The infinity (or [NaN]) a sign stands for: the sign of [x] in [x / 0]
    and in [x * Infinity]. *)
Definition inf_of_sign (c : comparison) : num :=
  match c with
  | Gt => PInf
  | Lt => NInf
  | Eq => NaN
  end.

Definition neg (a : num) : num :=
  match a with
  | Num x => Num (- x)
  | PInf => NInf
  | NInf => PInf
  | NaN => NaN
  end.

Definition add (a b : num) : num :=
  match a, b with
  | Num x, Num y => Num (x + y)
  | NaN, _ | _, NaN => NaN
  | PInf, NInf | NInf, PInf => NaN
  | PInf, _ | _, PInf => PInf
  | NInf, _ | _, NInf => NInf
  end.

Definition sub (a b : num) : num := add a (neg b).

Definition mul (a b : num) : num :=
  match a, b with
  | Num x, Num y => Num (x * y)
  | NaN, _ | _, NaN => NaN
  | Num x, PInf | PInf, Num x => inf_of_sign (x ?= 0)
  | Num x, NInf | NInf, Num x => inf_of_sign (0 ?= x)
  | PInf, PInf | NInf, NInf => PInf
  | PInf, NInf | NInf, PInf => NInf
  end.

Definition div (a b : num) : num :=
  match a, b with
  | Num x, Num y =>
      if Qeq_bool y 0 then inf_of_sign (x ?= 0) else Num (x / y)
  | NaN, _ | _, NaN => NaN
  | Num _, PInf | Num _, NInf => Num 0
  | PInf, Num y => if Qle_bool 0 y then PInf else NInf
  | NInf, Num y => if Qle_bool 0 y then NInf else PInf
  | PInf, PInf | PInf, NInf | NInf, PInf | NInf, NInf => NaN
  end.

(** [Math.min] and [Math.max]: [NaN] as soon as one argument is. *)
Definition min (a b : num) : num :=
  match a, b with
  | Num x, Num y => Num (Qmin x y)
  | NaN, _ | _, NaN => NaN
  | NInf, _ | _, NInf => NInf
  | PInf, c | c, PInf => c
  end.

Definition max (a b : num) : num :=
  match a, b with
  | Num x, Num y => Num (Qmax x y)
  | NaN, _ | _, NaN => NaN
  | PInf, _ | _, PInf => PInf
  | NInf, c | c, NInf => c
  end.

(** [a < b] and [a <= b]; a comparison with [NaN] is false. *)
Definition lt (a b : num) : bool :=
  match a, b with
  | Num x, Num y => negb (Qle_bool y x)
  | NaN, _ | _, NaN => false
  | _, NInf | PInf, _ => false
  | NInf, _ | _, PInf => true
  end.

Definition le (a b : num) : bool :=
  match a, b with
  | Num x, Num y => Qle_bool x y
  | NaN, _ | _, NaN => false
  | NInf, _ | _, PInf => true
  | _, NInf | PInf, _ => false
  end.

Definition gt (a b : num) : bool := lt b a.
Definition ge (a b : num) : bool := le b a.

(** Truthiness of a number, as [||] tests it: [0] and [NaN] are falsy. *)
Definition truthy (a : num) : bool :=
  match a with
  | Num x => negb (Qeq_bool x 0)
  | NaN => false
  | PInf | NInf => true
  end.

(** Equality of numbers up to the representation of a rational. *)
Definition eq (a b : num) : Prop :=
  match a, b with
  | Num x, Num y => x == y
  | PInf, PInf | NInf, NInf | NaN, NaN => True
  | _, _ => False
  end.

Definition finite (a : num) : Prop :=
  match a with
  | Num _ => True
  | _ => False
  end.

(** [lo <= a <= hi] for a finite [a]. *)
Definition between (lo hi : Q) (a : num) : Prop :=
  match a with
  | Num x => lo <= x /\ x <= hi
  | _ => False
  end.

End JS.

Abbreviation num := JS.num.
Abbreviation Num := JS.Num.
Infix "=~=" := JS.eq (at level 70, no associativity).

(** A result that may be an exception, for [try]/[catch]. *)
Inductive completion (A : Type) : Type :=
| Normal (a : A)
| Throw.
Arguments Normal {A} a.
Arguments Throw {A}.

(** ** The framing estimator ([detectFaceAndCrop], ImageEditor.tsx) *)

Record FaceRect : Type := mkFaceRect
  { faceX : num; faceY : num; faceWidth : num; faceHeight : num }.

Definition rect_eq (r s : FaceRect) : Prop :=
  faceX r =~= faceX s /\ faceY r =~= faceY s /\
  faceWidth r =~= faceWidth s /\ faceHeight r =~= faceHeight s.

(** Lines 96-121: the candidate face rectangle of the three aspect bands. *)
Definition faceEstimate (imgWidth imgHeight : num) : FaceRect :=
  let aspectRatio := JS.div imgWidth imgHeight in
  if JS.gt aspectRatio (Num 0.6) && JS.lt aspectRatio (Num 1.5) then
    let faceWidth := JS.min (JS.mul imgWidth (Num 0.4)) (JS.mul imgHeight (Num 0.3)) in
    let faceHeight := JS.mul faceWidth (Num 1.2) in
    let faceX := JS.div (JS.sub imgWidth faceWidth) (Num 2) in
    let faceY := JS.mul imgHeight (Num 0.15) in
    mkFaceRect faceX faceY faceWidth faceHeight
  else if JS.ge aspectRatio (Num 1.5) then
    let faceWidth := JS.min (JS.mul imgWidth (Num 0.25)) (JS.mul imgHeight (Num 0.6)) in
    let faceHeight := JS.mul faceWidth (Num 1.2) in
    let faceX := JS.mul imgWidth (Num 0.3) in
    let faceY := JS.div (JS.sub imgHeight faceHeight) (Num 2) in
    mkFaceRect faceX faceY faceWidth faceHeight
  else
    let faceWidth := JS.min (JS.mul imgWidth (Num 0.6)) (JS.mul imgHeight (Num 0.45)) in
    let faceHeight := JS.mul faceWidth (Num 1.33) in
    let faceX := JS.div (JS.sub imgWidth faceWidth) (Num 2) in
    let faceY := JS.mul imgHeight (Num 0.1) in
    mkFaceRect faceX faceY faceWidth faceHeight.

(** Lines 123-127: keep the rectangle inside the image. *)
Definition faceClamp (imgWidth imgHeight : num) (r : FaceRect) : FaceRect :=
  let faceX := JS.max (Num 0) (JS.min (faceX r) (JS.sub imgWidth (faceWidth r))) in
  let faceY := JS.max (Num 0) (JS.min (faceY r) (JS.sub imgHeight (faceHeight r))) in
  let faceWidth := JS.min (faceWidth r) (JS.sub imgWidth faceX) in
  let faceHeight := JS.min (faceHeight r) (JS.sub imgHeight faceY) in
  mkFaceRect faceX faceY faceWidth faceHeight.

(** Lines 142-143, the zoom bounds. *)
Definition limitZoom (newZoom : num) : num :=
  JS.max (Num 10) (JS.min (Num 200) newZoom).

(** Lines 129-143: the zoom that fits the rectangle to the 300x400 crop. *)
Definition faceZoom (r : FaceRect) : num :=
  let cropAspectRatio := JS.div (Num 300) (Num 400) in
  let faceAspectRatio := JS.div (faceWidth r) (faceHeight r) in
  let newZoom :=
    if JS.gt faceAspectRatio cropAspectRatio
    then JS.mul (JS.div (Num 400) (faceHeight r)) (Num 100)
    else JS.mul (JS.div (Num 300) (faceWidth r)) (Num 100) in
  limitZoom newZoom.

(** Lines 145-152: the position that centres the rectangle in the crop. *)
Definition facePosition (r : FaceRect) (newZoom : num) : num * num :=
  let scaledFaceX := JS.mul (faceX r) (JS.div newZoom (Num 100)) in
  let scaledFaceY := JS.mul (faceY r) (JS.div newZoom (Num 100)) in
  let newX :=
    JS.sub (JS.sub (Num 150) scaledFaceX)
      (JS.div (JS.mul (faceWidth r) (JS.div newZoom (Num 100))) (Num 2)) in
  let newY :=
    JS.sub (JS.sub (Num 200) scaledFaceY)
      (JS.div (JS.mul (faceHeight r) (JS.div newZoom (Num 100))) (Num 2)) in
  (newX, newY).

Record Framing : Type := mkFraming
  { fr_zoom : num; fr_position : num * num; fr_faceDetected : bool }.

(** The body of the [try] block, lines 94-157: arithmetic on numbers raises
    no exception, so the block always completes normally. *)
Definition detectTry (imgWidth imgHeight : num) : completion Framing :=
  let r := faceClamp imgWidth imgHeight (faceEstimate imgWidth imgHeight) in
  let newZoom := faceZoom r in
  Normal (mkFraming newZoom (facePosition r newZoom) true).

(** Lines 94-163 only: the [try] block with its [catch] fallback, that is the
    estimate once the image has been drawn on line 92; [detected] is the
    [faceDetected] flag before the call, which the fallback leaves alone.
    The whole function, with the returns and the draw call that come before
    the [try], is [runDetectFaceAndCrop] below. *)
Definition detectFaceAndCrop (detected : bool) (imgWidth imgHeight : num) : Framing :=
  match detectTry imgWidth imgHeight with
  | Normal f => f
  | Throw => mkFraming (Num 100) (Num 0, Num 0) detected
  end.

(** Lines 230-248: scale images smaller than the crop area up, to 200% at
    most; [None] stands for an [imageRef] that holds no element. *)
Definition getOptimalZoom (natural : option (num * num)) : num :=
  match natural with
  | None => Num 100
  | Some (imgWidth, imgHeight) =>
      let scaleX := JS.div (Num 300) imgWidth in
      let scaleY := JS.div (Num 400) imgHeight in
      let minScale := JS.max scaleX scaleY in
      if JS.gt minScale (Num 1)
      then JS.min (JS.mul minScale (Num 100)) (Num 200)
      else Num 100
  end.

(** ** The viewport transform *)

(** The preview, lines 415 and 428: the container is translated by
    [position] and the image scaled by [zoom / 100] about its top left
    corner, so a source coordinate is displayed at
    [source * (zoom / 100) + position]. *)
Definition displayOf (zoom pan source : num) : num :=
  JS.add (JS.mul source (JS.div zoom (Num 100))) pan.

(** Lines 280-289 at an output coordinate [out] of the crop frame:
    [visible = -position + out], then [source = visible / zoomFactor].  The
    source evaluates it at the frame's edges, [out] = 300 and 400. *)
Definition sourceOf (zoom pan out : num) : num :=
  let zoomFactor := JS.div zoom (Num 100) in
  let visible := JS.add (JS.neg pan) out in
  JS.div visible zoomFactor.

(** The quantities [handleSave] computes on lines 270-304. *)
Record SaveGeometry : Type := mkSaveGeometry
  { clampedSourceLeft : num; clampedSourceTop : num;
    clampedSourceWidth : num; clampedSourceHeight : num;
    destLeft : num; destTop : num; destWidth : num; destHeight : num;
    sourceLeft : num; sourceTop : num; sourceRight : num; sourceBottom : num }.

Definition saveGeometry (imgWidth imgHeight zoom : num) (position : num * num)
  : SaveGeometry :=
  let zoomFactor := JS.div zoom (Num 100) in
  let visibleLeft := JS.neg (fst position) in
  let visibleTop := JS.neg (snd position) in
  let visibleRight := JS.add visibleLeft (Num 300) in
  let visibleBottom := JS.add visibleTop (Num 400) in
  let sourceLeft := JS.div visibleLeft zoomFactor in
  let sourceTop := JS.div visibleTop zoomFactor in
  let sourceRight := JS.div visibleRight zoomFactor in
  let sourceBottom := JS.div visibleBottom zoomFactor in
  let clampedSourceLeft := JS.max (Num 0) sourceLeft in
  let clampedSourceTop := JS.max (Num 0) sourceTop in
  let clampedSourceRight := JS.min imgWidth sourceRight in
  let clampedSourceBottom := JS.min imgHeight sourceBottom in
  let clampedSourceWidth := JS.sub clampedSourceRight clampedSourceLeft in
  let clampedSourceHeight := JS.sub clampedSourceBottom clampedSourceTop in
  let destLeft := JS.mul (JS.sub clampedSourceLeft sourceLeft) zoomFactor in
  let destTop := JS.mul (JS.sub clampedSourceTop sourceTop) zoomFactor in
  let destWidth := JS.mul clampedSourceWidth zoomFactor in
  let destHeight := JS.mul clampedSourceHeight zoomFactor in
  mkSaveGeometry clampedSourceLeft clampedSourceTop
    clampedSourceWidth clampedSourceHeight
    destLeft destTop destWidth destHeight
    sourceLeft sourceTop sourceRight sourceBottom.

(** Lines 301-302 at a source coordinate [s]: where it is drawn on the
    output canvas.  The source evaluates it at the clamped left and top. *)
Definition destOf (zoom pan s : num) : num :=
  let zoomFactor := JS.div zoom (Num 100) in
  let sourceEdge := JS.div (JS.neg pan) zoomFactor in
  JS.mul (JS.sub s sourceEdge) zoomFactor.

(** ** Pixel buffers and the canvas *)

(** An RGBA pixel, each channel a byte. *)
Definition Pixel : Type := (Z * Z * Z * Z)%type.

Definition white : Pixel := (255, 255, 255, 255)%Z.
Definition transparentBlack : Pixel := (0, 0, 0, 0)%Z.

(** A decoded source image: natural size and row-major pixels. *)
Record Image : Type := mkImage
  { naturalWidth : Z; naturalHeight : Z; imagePixels : list Pixel }.

(** The bitmap of a canvas, row-major. *)
Record Canvas : Type := mkCanvas
  { width : Z; height : Z; pixels : list Pixel }.

(** [canvas.width = w; canvas.height = h]: a cleared bitmap of that size. *)
Definition setSize (w h : Z) : Canvas :=
  mkCanvas w h (repeat transparentBlack (Z.to_nat (w * h))).

Fixpoint mapIndexed {A B : Type} (f : Z -> A -> B) (i : Z) (l : list A) : list B :=
  match l with
  | [] => []
  | a :: l' => f i a :: mapIndexed f (i + 1)%Z l'
  end.

(** Repaint every pixel of the bitmap from its coordinates and old value. *)
Definition paint (c : Canvas) (f : Z -> Z -> Pixel -> Pixel) : Canvas :=
  mkCanvas (width c) (height c)
    (mapIndexed (fun i p => f (i mod width c)%Z (i / width c)%Z p) 0%Z (pixels c)).

(** [ctx.fillRect(x, y, w, h)] with an opaque [fillStyle]. *)
Definition fillRect (c : Canvas) (style : Pixel) (x y w h : Z) : Canvas :=
  paint c (fun px py old =>
    if ((x <=? px) && (px <? x + w) && (y <=? py) && (py <? y + h))%Z
    then style else old).

Section Rasterizer.

(** The platform's resampling and compositing kernel, which the repository
    does not contain: the new value of an output pixel whose centre falls on
    the point [(u, v)] of the source image, given its old value. *)
Variable render : Image -> Q -> Q -> Pixel -> Pixel.

(** [ctx.drawImage(img, sx, sy, sw, sh, dx, dy, dw, dh)] as the HTML canvas
    standard defines it: nothing is painted for a non-finite argument or a
    zero [sw] or [sh]; negative sizes name the same rectangle from its other
    corner; the source rectangle is clipped to the image and the destination
    rectangle in the same proportion. *)
Definition drawImage (c : Canvas) (img : Image)
    (sx sy sw sh dx dy dw dh : num) : Canvas :=
  match sx, sy, sw, sh, dx, dy, dw, dh with
  | Num sx, Num sy, Num sw, Num sh, Num dx, Num dy, Num dw, Num dh =>
      if Qeq_bool sw 0 || Qeq_bool sh 0 then c
      else
        let left := Qmax 0 (Qmin sx (sx + sw)) in
        let right := Qmin (inject_Z (naturalWidth img)) (Qmax sx (sx + sw)) in
        let top := Qmax 0 (Qmin sy (sy + sh)) in
        let bottom := Qmin (inject_Z (naturalHeight img)) (Qmax sy (sy + sh)) in
        if Qle_bool right left || Qle_bool bottom top
           || Qeq_bool dw 0 || Qeq_bool dh 0
        then c
        else
          paint c (fun px py old =>
            let u := sx + (inject_Z px + (1 # 2) - dx) * (sw / dw) in
            let v := sy + (inject_Z py + (1 # 2) - dy) * (sh / dh) in
            if Qle_bool left u && negb (Qle_bool right u)
               && Qle_bool top v && negb (Qle_bool bottom v)
            then render img u v old else old)
  | _, _, _, _, _, _, _, _ => c
  end.

(** [ctx.getImageData(0, 0, 300, 400).data] of a 300x400 canvas: the whole
    bitmap as RGBA bytes. *)
Definition getImageData (c : Canvas) : list Z :=
  flat_map (fun p : Pixel => let '(r, g, b, a) := p in [r; g; b; a]) (pixels c).

Fixpoint toPixels (data : list Z) : list Pixel :=
  match data with
  | r :: g :: b :: a :: rest => (r, g, b, a) :: toPixels rest
  | _ => []
  end.

(** [ctx.putImageData(imageData, 0, 0)] with data of the canvas' own size. *)
Definition putImageData (c : Canvas) (data : list Z) : Canvas :=
  mkCanvas (width c) (height c) (toPixels data).

(** Storing a number in a [Uint8ClampedArray]: clamp to 0..255 and round to
    the nearest integer, a tie to the even one; [NaN] is stored as 0. *)
Definition roundHalfEven (q : Q) : Z :=
  let f := Qfloor q in
  let d := q - inject_Z f in
  if negb (Qle_bool (1 # 2) d) then f
  else if negb (Qle_bool d (1 # 2)) then (f + 1)%Z
  else if Z.even f then f else (f + 1)%Z.

Definition toUint8Clamped (x : num) : Z :=
  match x with
  | Num q =>
      if Qle_bool q 0 then 0%Z
      else if Qle_bool 255 q then 255%Z
      else roundHalfEven q
  | JS.PInf => 255%Z
  | JS.NInf | JS.NaN => 0%Z
  end.

(** Lines 325-326. *)
Definition luma (r g b : num) : num :=
  JS.add (JS.add (JS.mul r (Num 0.299)) (JS.mul g (Num 0.587)))
         (JS.mul b (Num 0.114)).

(** Lines 324-331: the loop over [data] in steps of four.  A read past the
    end of the array gives [undefined], which makes [grey] a [NaN]; a write
    past the end is ignored. *)
Fixpoint greyscale (data : list Z) : list Z :=
  match data with
  | r :: g :: b :: a :: rest =>
      let grey := toUint8Clamped (luma (JS.ofZ r) (JS.ofZ g) (JS.ofZ b)) in
      grey :: grey :: grey :: a :: greyscale rest
  | [r; g; b] =>
      let grey := toUint8Clamped (luma (JS.ofZ r) (JS.ofZ g) (JS.ofZ b)) in
      [grey; grey; grey]
  | [_; _] => [0; 0]%Z
  | [_] => [0%Z]
  | [] => []
  end.

(** Lines 250-334 of [handleSave]: the canvas that is encoded. *)
Definition handleSaveCanvas (img : Image) (zoom : num) (position : num * num)
    (isGreyscale : bool) : Canvas :=
  let canvas := setSize 300 400 in
  let canvas := fillRect canvas white 0 0 300 400 in
  let g := saveGeometry (JS.ofZ (naturalWidth img)) (JS.ofZ (naturalHeight img))
             zoom position in
  let canvas :=
    drawImage canvas img
      (clampedSourceLeft g) (clampedSourceTop g)
      (clampedSourceWidth g) (clampedSourceHeight g)
      (destLeft g) (destTop g) (destWidth g) (destHeight g) in
  if isGreyscale
  then putImageData canvas (greyscale (getImageData canvas))
  else canvas.

End Rasterizer.

(** A nearest-neighbour kernel that overwrites the old pixel. *)
Definition nearestNeighbour (img : Image) (u v : Q) (old : Pixel) : Pixel :=
  nth (Z.to_nat (Qfloor v * naturalWidth img + Qfloor u)) (imagePixels img) old.

(** The colour transform in the specification's words: each pixel
    [(R, G, B, A)] becomes [(g, g, g, A)] for the stored luma [g]. *)
Definition greyPixelSpec (p : Pixel) : Pixel :=
  let '(r, g, b, a) := p in
  let grey := toUint8Clamped (luma (JS.ofZ r) (JS.ofZ g) (JS.ofZ b)) in
  (grey, grey, grey, a).

Definition isByte (n : Z) : Prop := (0 <= n <= 255)%Z.

(** ** The records of a session (ImageProcessor.tsx) *)

(** The [crop] object the editor saves, lines 341-350 of ImageEditor.tsx. *)
Record CropData : Type := mkCropData
  { c_x : num; c_y : num; c_width : num; c_height : num;
    c_zoom : num;
    c_position : num * num;
    c_croppedUrl : option string;
    c_isGreyscale : option bool }.

Record File : Type := mkFile { name : string }.

Record ProcessedImage : Type := mkProcessedImage
  { id : string;
    originalFile : File;
    previewUrl : string;
    croppedUrl : option string;
    isProcessed : bool;
    isEdited : bool;
    isAccepted : bool;
    crop : option CropData }.

(** Truthiness of an optional string: [undefined] and the empty string are
    falsy. *)
Definition truthyString (s : string) : bool :=
  match s with
  | EmptyString => false
  | String _ _ => true
  end.

Definition truthyUrl (u : option string) : bool :=
  match u with
  | Some s => truthyString s
  | None => false
  end.

(** [a || b] on optional strings. *)
Definition orUrl (a b : option string) : option string :=
  if truthyUrl a then a else b.

(** [selectedImageId === imageId] for a [string | null] and a string. *)
Definition isSelected (selectedImageId : option string) (imageId : string) : bool :=
  match selectedImageId with
  | Some s => String.eqb s imageId
  | None => false
  end.

(** [list[0]?.id || null]. *)
Definition firstId (l : list ProcessedImage) : option string :=
  match l with
  | img :: _ => if truthyString (id img) then Some (id img) else None
  | [] => None
  end.

(** Lines 44-53: the record of a new file, with the identifier and the
    object URL that the platform hands out for it. *)
Definition newImage (entry : string * File * string) : ProcessedImage :=
  let '(newId, file, url) := entry in
  mkProcessedImage newId file url None false false false None.

(** Lines 65-70: the records once the progress reaches 100. *)
Definition markProcessed (img : ProcessedImage) : ProcessedImage :=
  mkProcessedImage (id img) (originalFile img) (previewUrl img)
    (Some (previewUrl img)) true (isEdited img) (isAccepted img) (crop img).

(** Lines 88-106. *)
Definition handleImageEdit (images : list ProcessedImage) (imageId : string)
    (newCroppedUrl : string) (cropData : option CropData) : list ProcessedImage :=
  map (fun img =>
         if String.eqb (id img) imageId
         then mkProcessedImage (id img) (originalFile img) (previewUrl img)
                (Some newCroppedUrl) (isProcessed img) true true cropData
         else img)
      images.

(** Lines 108-115: the remaining records and the new selection. *)
Definition handleDeleteImage (images : list ProcessedImage)
    (selectedImageId : option string) (imageId : string)
  : list ProcessedImage * option string :=
  let newImages := filter (fun img => negb (String.eqb (id img) imageId)) images in
  (newImages,
   if isSelected selectedImageId imageId then firstId newImages else selectedImageId).

(** Lines 117-135. *)
Definition handleAcceptImage (images : list ProcessedImage)
    (selectedImageId : option string) (imageId : string) (accepted : bool)
  : list ProcessedImage :=
  map (fun img =>
         if String.eqb (id img) imageId then
           if accepted && negb (truthyUrl (croppedUrl img))
              && isSelected selectedImageId imageId
           then mkProcessedImage (id img) (originalFile img) (previewUrl img)
                  (croppedUrl img) (isProcessed img) true accepted (crop img)
           else mkProcessedImage (id img) (originalFile img) (previewUrl img)
                  (croppedUrl img) (isProcessed img)
                  (if accepted then true else isEdited img) accepted (crop img)
         else img)
      images.

(** Line 137 and line 65 of ImageEditor.tsx: [images.find]. *)
Definition findSelected (images : list ProcessedImage)
    (selectedImageId : option string) : option ProcessedImage :=
  match selectedImageId with
  | Some s => find (fun img => String.eqb (id img) s) images
  | None => None
  end.

(** A record has a committed crop result when a save attached its data. *)
Definition hasCropResult (img : ProcessedImage) : bool :=
  match crop img with
  | Some _ => true
  | None => false
  end.

(** ** The download stage (ImageProcessor.tsx 330-341, DownloadManager.tsx) *)

Record DownloadItem : Type := mkDownloadItem
  { d_id : string;
    d_originalName : string;
    d_croppedUrl : option string;
    d_isProcessed : bool }.

(** Lines 332-340 of ImageProcessor.tsx: the [processedImages] prop. *)
Definition downloadItem (img : ProcessedImage) : DownloadItem :=
  mkDownloadItem (id img) (name (originalFile img))
    (orUrl (croppedUrl img)
       (if isAccepted img then Some (previewUrl img) else None))
    (isProcessed img && (isEdited img || isAccepted img)).

Definition hasId (selected : list string) (imageId : string) : bool :=
  existsb (String.eqb imageId) selected.

(** Lines 43-48 of DownloadManager.tsx: the initial selection. *)
Definition initialSelection (processedImages : list DownloadItem) : list string :=
  map d_id (filter d_isProcessed processedImages).

(** Lines 92-94 of DownloadManager.tsx: what goes into the archive. *)
Definition downloadSelectedAsZip (processedImages : list DownloadItem)
    (selectedImages : list string) : list DownloadItem :=
  filter (fun img => d_isProcessed img && truthyUrl (d_croppedUrl img)
                     && hasId selectedImages (d_id img))
         processedImages.

(** A record is offered for download with content: it is listed (and
    selected by default) and carries a URL to fetch. *)
Definition exportable (img : ProcessedImage) : bool :=
  d_isProcessed (downloadItem img) && truthyUrl (d_croppedUrl (downloadItem img)).

(** ** The editor's state (ImageEditor.tsx, lines 52-59) *)

Record EditorState : Type := mkEditorState
  { zoom : num;
    position : num * num;
    isDragging : bool;
    dragStart : num * num;
    cropRect : num * num * num * num;
    faceDetected : bool;
    isDetecting : bool;
    isGreyscale : bool }.

Definition defaultCropRect : num * num * num * num :=
  (Num 0, Num 0, Num 300, Num 400).

Definition initialEditor : EditorState :=
  mkEditorState (Num 100) (Num 0, Num 0) false (Num 0, Num 0)
    defaultCropRect false false true.

Definition setZoom (v : num) (e : EditorState) : EditorState :=
  mkEditorState v (position e) (isDragging e) (dragStart e) (cropRect e)
    (faceDetected e) (isDetecting e) (isGreyscale e).

Definition setPosition (p : num * num) (e : EditorState) : EditorState :=
  mkEditorState (zoom e) p (isDragging e) (dragStart e) (cropRect e)
    (faceDetected e) (isDetecting e) (isGreyscale e).

Definition setIsGreyscale (b : bool) (e : EditorState) : EditorState :=
  mkEditorState (zoom e) (position e) (isDragging e) (dragStart e) (cropRect e)
    (faceDetected e) (isDetecting e) b.

Definition naturalSize (natural : option (Z * Z)) : option (num * num) :=
  match natural with
  | Some (w, h) => Some (JS.ofZ w, JS.ofZ h)
  | None => None
  end.

Definition setIsDetecting (b : bool) (e : EditorState) : EditorState :=
  mkEditorState (zoom e) (position e) (isDragging e) (dragStart e) (cropRect e)
    (faceDetected e) b (isGreyscale e).

(** The [<img>] element of the editor as the platform presents it: still
    loading ([complete] is false); broken, when the file could not be loaded
    or decoded ([complete] is true, the natural size is 0x0 and drawing the
    element throws an [InvalidStateError]); or loaded, with its natural
    size (drawing an element of a zero width or height paints nothing and
    throws nothing). *)
Inductive ImgElement : Type :=
| ImgLoading
| ImgBroken
| ImgLoaded (naturalWidth naturalHeight : Z).

(** What [detectFaceAndCrop] finds: no element in [imageRef] or
    [canvasRef] (line 69), no 2d context (lines 76-79), or an element. *)
Inductive DetectTarget : Type :=
| RefsMissing
| ContextMissing
| Element (el : ImgElement).

(** How a call ends: it returns, or an exception leaves it uncaught; in
    both cases with the state that the setters called so far have made. *)
Inductive DetectResult : Type :=
| Completed (e : EditorState)
| Uncaught (e : EditorState).

Definition stateOf (r : DetectResult) : EditorState :=
  match r with
  | Completed e => e
  | Uncaught e => e
  end.

(** Lines 68-166, the whole of [detectFaceAndCrop] on the state.  The draw
    call of line 92 stands before the [try]: the exception it throws for a
    broken image is not caught, and the fallback of the [catch] is not
    applied.  For an image that is still loading the call returns and is
    made again when the image has loaded, a later event. *)
Definition runDetectFaceAndCrop (target : DetectTarget) (e : EditorState)
  : DetectResult :=
  match target with
  | RefsMissing => Completed e
  | ContextMissing => Completed (setIsDetecting false (setIsDetecting true e))
  | Element ImgLoading => Completed (setIsDetecting true e)
  | Element ImgBroken => Uncaught (setIsDetecting true e)
  | Element (ImgLoaded w h) =>
      let f := detectFaceAndCrop (faceDetected e) (JS.ofZ w) (JS.ofZ h) in
      Completed
        (mkEditorState (fr_zoom f) (fr_position f) (isDragging e) (dragStart e)
           (cropRect e) (fr_faceDetected f) false (isGreyscale e))
  end.

(** Lines 169-198: the effect that runs when the selected image changes.
    The face detection it schedules is a later event of its own. *)
Definition selectionEffect (selectedImage : option ProcessedImage)
    (natural : option (Z * Z)) (e : EditorState) : EditorState :=
  match selectedImage with
  | None => e
  | Some img =>
      match crop img with
      | Some c =>
          mkEditorState
            (if JS.truthy (c_zoom c) then c_zoom c else Num 100)
            (c_position c) (isDragging e) (dragStart e)
            (c_x c, c_y c, c_width c, c_height c)
            false false
            (match c_isGreyscale c with Some b => b | None => true end)
      | None =>
          mkEditorState (getOptimalZoom (naturalSize natural)) (Num 0, Num 0)
            (isDragging e) (dragStart e) defaultCropRect false false true
      end
  end.

(** Lines 200-208. *)
Definition handleMouseDown (clientX clientY : num) (e : EditorState) : EditorState :=
  mkEditorState (zoom e) (position e) true
    (JS.sub clientX (fst (position e)), JS.sub clientY (snd (position e)))
    (cropRect e) (faceDetected e) (isDetecting e) (isGreyscale e).

(** Lines 210-220. *)
Definition handleMouseMove (clientX clientY : num) (e : EditorState) : EditorState :=
  if negb (isDragging e) then e
  else setPosition (JS.sub clientX (fst (dragStart e)),
                    JS.sub clientY (snd (dragStart e))) e.

(** Lines 222-224. *)
Definition handleMouseUp (e : EditorState) : EditorState :=
  mkEditorState (zoom e) (position e) false (dragStart e) (cropRect e)
    (faceDetected e) (isDetecting e) (isGreyscale e).

(** Lines 226-228: [value[0]] is stored as it comes; an empty array gives
    [undefined], which behaves as [NaN] in the arithmetic on the zoom. *)
Definition handleZoomChange (value : list num) (e : EditorState) : EditorState :=
  setZoom (hd JS.NaN value) e.

(** Lines 518-522, the reset button. *)
Definition resetPosition (e : EditorState) : EditorState :=
  mkEditorState (Num 100) (Num 0, Num 0) (isDragging e) (dragStart e)
    (cropRect e) false (isDetecting e) (isGreyscale e).

(** Lines 341-350: the crop data handed to [onImageSave]. *)
Definition savedCrop (e : EditorState) (url : string) : CropData :=
  let '(x, y, w, h) := cropRect e in
  mkCropData x y w h (zoom e) (position e) (Some url) (Some (isGreyscale e)).

(** ** The session as a transition system *)

Inductive Tab : Type := UploadTab | EditTab | DownloadTab.

(** A [processImages] call whose interval is still running: the [images] it
    captured and the new records. *)
Record PendingUpload : Type := mkPendingUpload
  { capturedImages : list ProcessedImage; newImages : list ProcessedImage }.

Record AppState : Type := mkAppState
  { images : list ProcessedImage;
    selectedImageId : option string;
    activeTab : Tab;
    pending : list PendingUpload;
    editor : EditorState }.

Definition initialState : AppState :=
  mkAppState [] None UploadTab [] initialEditor.

Inductive Event : Type :=
| Upload (files : list (string * File * string))
| ProcessingDone (k : nat)
| SelectImage (imageId : string)
| DeleteImage (imageId : string)
| AcceptImage (imageId : string) (accepted : bool)
| SelectionEffect (natural : option (Z * Z))
| DetectFace (target : DetectTarget)
| MouseDown (clientX clientY : Q)
| MouseMove (clientX clientY : Q)
| MouseUp
| ZoomSlider (value : num)
| GreyscaleSwitch (checked : bool)
| ResetPosition
| SaveCrop (blobUrl : string)
| EditorMount
| SwitchTab (tab : Tab).

Definition withEditor (s : AppState) (e : EditorState) : AppState :=
  mkAppState (images s) (selectedImageId s) (activeTab s) (pending s) e.

Definition withImages (s : AppState) (l : list ProcessedImage) : AppState :=
  mkAppState l (selectedImageId s) (activeTab s) (pending s) (editor s).

Fixpoint removeNth {A : Type} (k : nat) (l : list A) : list A :=
  match l, k with
  | [], _ => []
  | _ :: l', O => l'
  | a :: l', S k' => a :: removeNth k' l'
  end.

(** [crop.croppedUrl || selectedImage.previewUrl]. *)
Definition urlOr (a : option string) (b : string) : string :=
  match a with
  | Some u => if truthyString u then u else b
  | None => b
  end.

(** Lines 309-315 of ImageProcessor.tsx, the [onImageSave] callback. *)
Definition onImageSave (images : list ProcessedImage)
    (selectedImage : ProcessedImage) (imageId : string) (c : CropData)
  : list ProcessedImage :=
  handleImageEdit images imageId
    (urlOr (c_croppedUrl c) (previewUrl selectedImage)) (Some c).

(** One event of the session.  [DeleteImage] is [handleDeleteImage], which
    no component calls yet; [EditorMount] is the editor being mounted anew,
    with its initial state. *)
Definition step (s : AppState) (ev : Event) : AppState :=
  match ev with
  | Upload files =>
      (* handleImageUpload and processImages, lines 39-86 *)
      match files with
      | [] => s
      | _ :: _ =>
          mkAppState (images s) (selectedImageId s) (activeTab s)
            (pending s ++ [mkPendingUpload (images s) (map newImage files)])
            (editor s)
      end
  | ProcessingDone k =>
      (* lines 61-75 *)
      match nth_error (pending s) k with
      | None => s
      | Some p =>
          let processedImages := map markProcessed (newImages p) in
          mkAppState (capturedImages p ++ processedImages)
            (firstId processedImages) EditTab
            (removeNth k (pending s)) (editor s)
      end
  | SelectImage imageId =>
      mkAppState (images s) (Some imageId) (activeTab s) (pending s) (editor s)
  | DeleteImage imageId =>
      let '(l, sel) := handleDeleteImage (images s) (selectedImageId s) imageId in
      mkAppState l sel (activeTab s) (pending s) (editor s)
  | AcceptImage imageId accepted =>
      withImages s (handleAcceptImage (images s) (selectedImageId s) imageId accepted)
  | SelectionEffect natural =>
      withEditor s
        (selectionEffect (findSelected (images s) (selectedImageId s)) natural (editor s))
  | DetectFace target =>
      withEditor s (stateOf (runDetectFaceAndCrop target (editor s)))
  | MouseDown x y => withEditor s (handleMouseDown (Num x) (Num y) (editor s))
  | MouseMove x y => withEditor s (handleMouseMove (Num x) (Num y) (editor s))
  | MouseUp => withEditor s (handleMouseUp (editor s))
  | ZoomSlider value => withEditor s (handleZoomChange [value] (editor s))
  | GreyscaleSwitch checked => withEditor s (setIsGreyscale checked (editor s))
  | ResetPosition => withEditor s (resetPosition (editor s))
  | SaveCrop blobUrl =>
      (* handleSave's toBlob callback, lines 336-351, taken to run before any
         other event *)
      match selectedImageId s, findSelected (images s) (selectedImageId s) with
      | Some sel, Some selectedImage =>
          if truthyString sel
          then withImages s
                 (onImageSave (images s) selectedImage sel
                    (savedCrop (editor s) blobUrl))
          else s
      | _, _ => s
      end
  | EditorMount => withEditor s initialEditor
  | SwitchTab tab =>
      mkAppState (images s) (selectedImageId s) tab (pending s) (editor s)
  end.

(** What the platform guarantees of an event: object URLs are not empty,
    and the slider (min 10, max 200) reports a value in its range. *)
Definition validEvent (ev : Event) : Prop :=
  match ev with
  | Upload files => Forall (fun entry => truthyString (snd entry) = true) files
  | ZoomSlider value => JS.between 10 200 value
  | SaveCrop blobUrl => truthyString blobUrl = true
  | _ => True
  end.

Inductive reachable : AppState -> Prop :=
| reachable_initial : reachable initialState
| reachable_step (s : AppState) (ev : Event) :
    reachable s -> validEvent ev -> reachable (step s ev).

Definition run (evs : list Event) : AppState := fold_left step evs initialState.

(** ** Invariants of the session *)

(** What holds of every record of a reachable session. *)
Record imageOk (img : ProcessedImage) : Prop := mkImageOk
  { ok_processed : isProcessed img = true;
    ok_croppedUrl : truthyUrl (croppedUrl img) = true;
    ok_previewUrl : truthyString (previewUrl img) = true;
    ok_accepted : isAccepted img = true -> isEdited img = true;
    ok_saved : hasCropResult img = true -> isEdited img = true;
    ok_zoom : forall c, crop img = Some c -> JS.between 10 200 (c_zoom c) }.

(** A record that [processImages] has just created. *)
Definition freshOk (img : ProcessedImage) : Prop :=
  truthyString (previewUrl img) = true /\ isEdited img = false /\
  isAccepted img = false /\ crop img = None.

Definition pendingOk (p : PendingUpload) : Prop :=
  Forall imageOk (capturedImages p) /\ Forall freshOk (newImages p).

Record stateOk (s : AppState) : Prop := mkStateOk
  { ok_images : Forall imageOk (images s);
    ok_pending : Forall pendingOk (pending s);
    ok_editor : JS.between 10 200 (zoom (editor s)) }.

(** ** Sample data *)

Definition sampleFile : File := mkFile "portrait.jpg"%string.
Definition sampleId : string := "img-1"%string.
Definition samplePreviewUrl : string := "blob:preview-1"%string.
Definition sampleCropUrl : string := "blob:crop-1"%string.

Definition sampleRecord : ProcessedImage :=
  mkProcessedImage sampleId sampleFile samplePreviewUrl (Some samplePreviewUrl)
    true false false None.

(** The session in which one file is uploaded, processed and then accepted
    in the gallery, without a save. *)
Definition acceptedWithoutSave : AppState :=
  run [Upload [(sampleId, sampleFile, samplePreviewUrl)];
       ProcessingDone 0;
       AcceptImage sampleId true].

(** The session in which the file is saved in the editor and the
    acceptance then withdrawn. *)
Definition savedThenUnaccepted : AppState :=
  run [Upload [(sampleId, sampleFile, samplePreviewUrl)];
       ProcessingDone 0;
       SaveCrop sampleCropUrl;
       AcceptImage sampleId false].

(** The scenario image: 1000x1000 pixels of one colour. *)
Definition scenarioImage : Image :=
  mkImage 1000 1000 (repeat (10, 20, 30, 255)%Z (Z.to_nat (1000 * 1000))).

From Stdlib Require Import Ascii DecimalString.
(** ** What the page derives from the records (ImageProcessor.tsx) *)

(** Lines 138-141. *)
Definition allImagesProcessed (images : list ProcessedImage) : bool :=
  Nat.ltb 0 (length images) && forallb isProcessed images.

Definition allImagesEdited (images : list ProcessedImage) : bool :=
  Nat.ltb 0 (length images)
  && forallb (fun img => isEdited img || isAccepted img) images.

(** Lines 159 and 162: the [disabled] flags of the Edit and Download tabs. *)
Definition editTabDisabled (images : list ProcessedImage) : bool :=
  negb (allImagesProcessed images).

Definition downloadTabDisabled (images : list ProcessedImage) : bool :=
  Nat.eqb (length images) 0.

(** Lines 228-249: what the "Final Result" card shows for the selected
    record, the saved image (with its greyscale filter) or a message. *)
Inductive FinalResultView : Type :=
| ShowImage (src : string) (grayscale : bool)
| ShowMessage (text : string).

Definition clickSaveMessage : string := "Click Save Crop to see result"%string.
Definition noCropMessage : string := "No crop saved yet"%string.

(** [crop?.isGreyscale !== false]. *)
Definition greyscaleShown (c : option CropData) : bool :=
  match c with
  | Some d => match c_isGreyscale d with Some false => false | _ => true end
  | None => true
  end.

Definition finalResultView (selectedImage : ProcessedImage) : FinalResultView :=
  match croppedUrl selectedImage with
  | Some u =>
      if truthyString u && isEdited selectedImage
      then ShowImage u (greyscaleShown (crop selectedImage))
      else ShowMessage (if isAccepted selectedImage
                        then clickSaveMessage else noCropMessage)
  | None =>
      ShowMessage (if isAccepted selectedImage
                   then clickSaveMessage else noCropMessage)
  end.

(** ** The selection of the download stage (DownloadManager.tsx) *)

(** A [Set<string>] as the list of its elements in insertion order. *)
Definition setAdd (s : list string) (x : string) : list string :=
  if hasId s x then s else s ++ [x].

Definition setDelete (s : list string) (x : string) : list string :=
  filter (fun y => negb (String.eqb y x)) s.

(** [new Set(array)]. *)
Definition newSet (l : list string) : list string := fold_left setAdd l [].

(** Lines 35-40. *)
Definition processedCount (processedImages : list DownloadItem) : nat :=
  length (filter d_isProcessed processedImages).

Definition allProcessed (processedImages : list DownloadItem) : bool :=
  Nat.eqb (processedCount processedImages) (length processedImages)
  && Nat.ltb 0 (length processedImages).

(** Lines 65-73. *)
Definition toggleImageSelection (selectedImages : list string) (imageId : string)
  : list string :=
  if hasId selectedImages imageId
  then setDelete selectedImages imageId
  else setAdd selectedImages imageId.

(** Lines 76-88. *)
Definition toggleSelectAll (processedImages : list DownloadItem)
    (selectedImages : list string) : list string :=
  let processedImageIds := map d_id (filter d_isProcessed processedImages) in
  if Nat.eqb (length selectedImages) (length processedImageIds)
  then []
  else newSet processedImageIds.

(** [name.replace(/\.[^/.]+$/, "")], lines 58 and 107: drop a last dot and
    what follows it, when that is not empty and holds no slash. *)
Definition notSlashDot (c : Ascii.ascii) : bool :=
  negb (Ascii.eqb c "/"%char) && negb (Ascii.eqb c "."%char).

Fixpoint allNotSlashDot (s : string) : bool :=
  match s with
  | EmptyString => true
  | String c rest => notSlashDot c && allNotSlashDot rest
  end.

Fixpoint stripExtension (s : string) : string :=
  match s with
  | EmptyString => EmptyString
  | String c rest =>
      if Ascii.eqb c "."%char && truthyString rest && allNotSlashDot rest
      then EmptyString
      else String c (stripExtension rest)
  end.

Definition downloadName (prefix originalName : string) : string :=
  (prefix ++ stripExtension originalName ++ ".png")%string.

(** The link that [downloadSingleImage] clicks. *)
Record DownloadLink : Type := mkDownloadLink
  { href : string; download : string }.

(** Lines 51-62; [None] when the function returns without a download. *)
Definition downloadSingleImage (filePrefix : string)
    (processedImages : list DownloadItem) (imageId : string)
  : option DownloadLink :=
  match find (fun img => String.eqb (d_id img) imageId) processedImages with
  | None => None
  | Some image =>
      match d_croppedUrl image with
      | Some u =>
          if truthyString u
          then Some (mkDownloadLink u (downloadName filePrefix (d_originalName image)))
          else None
      | None => None
      end
  end.

(** Lines 103-110: the call [zip.file(filename, blob)] that the loop makes
    for one record, as the file name and the URL whose content is fetched;
    [None] when the test of [croppedUrl] skips the record. *)
Definition zipEntry (prefix : string) (img : DownloadItem) : option (string * string) :=
  match d_croppedUrl img with
  | Some u =>
      if truthyString u
      then Some (downloadName prefix (d_originalName img), u)
      else None
  | None => None
  end.

(** The calls of [zip.file] that the loop makes, in order, when the import
    of the library and every fetch succeed. *)
Definition zipCalls (prefix : string) (selectedImgs : list DownloadItem)
  : list (string * string) :=
  flat_map (fun img => match zipEntry prefix img with
                       | Some call => [call]
                       | None => []
                       end)
           selectedImgs.

(** ** The uploader (ImageUploader.tsx) *)

(** A file that the drop zone rejected, with the code of its first error. *)
Record Rejection : Type := mkRejection { rej_file : File; rej_code : string }.

Record UploaderState : Type := mkUploaderState
  { up_files : list File; up_errors : list string; up_progress : Z }.

Definition showN (n : N) : string := NilZero.string_of_uint (N.to_uint n).

(** Lines 29-37: the message for one rejected file. *)
Definition rejectionMessage (maxFileSize : N) (r : Rejection) : string :=
  if String.eqb (rej_code r) "file-too-large" then
    (name (rej_file r) ++ " is too large. Max size is " ++ showN maxFileSize ++ "MB.")%string
  else if String.eqb (rej_code r) "file-invalid-type" then
    (name (rej_file r) ++ " has an invalid file type. Accepted types: JPG, PNG.")%string
  else (name (rej_file r) ++ " couldn't be uploaded.")%string.

(** Lines 25-53: the new state and the files handed to [onImagesUploaded],
    if it is called. *)
Definition onDrop (maxFileSize : N) (acceptedFiles : list File)
    (rejectedFiles : list Rejection) (st : UploaderState)
  : UploaderState * option (list File) :=
  let errors :=
    match rejectedFiles with
    | [] => []
    | _ :: _ => map (rejectionMessage maxFileSize) rejectedFiles
    end in
  match acceptedFiles with
  | [] => (mkUploaderState (up_files st) errors (up_progress st), None)
  | _ :: _ => (mkUploaderState acceptedFiles errors 0, Some acceptedFiles)
  end.

(** Lines 58-64: one tick of the simulated progress. *)
Definition progressTick (prev : Z) : Z :=
  if (100 <=? prev)%Z then 100%Z else (prev + 10)%Z.

(** [array.splice(index, 1)] on a copy, for an index that is a natural
    number. *)
Definition splice1 {A : Type} (index : nat) (l : list A) : list A :=
  firstn index l ++ skipn (S index) l.

(** Lines 78-83. *)
Definition removeFile (index : nat) (st : UploaderState)
  : UploaderState * option (list File) :=
  let newFiles := splice1 index (up_files st) in
  (mkUploaderState newFiles (up_errors st) (up_progress st), Some newFiles).

(** Lines 85-90. *)
Definition clearAllFiles (st : UploaderState) : UploaderState * option (list File) :=
  (mkUploaderState [] [] 0, Some []).

(** Lines 79-86 of ImageProcessor.tsx: the error shown, or the files that
    go to [processImages]. *)
Definition handleImageUpload (files : list File) : string + list File :=
  match files with
  | [] => inl "No valid files selected"%string
  | _ :: _ => inr files
  end.

(** A grey pixel, and the alpha channel of a pixel. *)
Definition isGrey (p : Pixel) : Prop :=
  let '(r, g, b, _) := p in r = g /\ g = b.

Definition alphaOf (p : Pixel) : Z := let '(_, _, _, a) := p in a.

(** An event other than the completion of a processing interval. *)
Definition notProcessingDone (ev : Event) : Prop :=
  match ev with
  | ProcessingDone _ => False
  | _ => True
  end.

(** A name without a dot. *)
Fixpoint noDot (s : string) : bool :=
  match s with
  | EmptyString => true
  | String c rest => negb (Ascii.eqb c "."%char) && noDot rest
  end.

(** ** Further invariants of the session *)

Definition finitePair (p : num * num) : Prop :=
  JS.finite (fst p) /\ JS.finite (snd p).

(** The URL of a record is that of its saved crop, and the placeholder of
    the upload when no crop was saved; a saved pan is finite. *)
Definition contentOk (img : ProcessedImage) : Prop :=
  match crop img with
  | Some c =>
      croppedUrl img = c_croppedUrl c /\ truthyUrl (c_croppedUrl c) = true /\
      finitePair (c_position c)
  | None => croppedUrl img = Some (previewUrl img)
  end.

Definition pendingContentOk (p : PendingUpload) : Prop :=
  Forall contentOk (capturedImages p) /\ Forall freshOk (newImages p).

Record viewOk (s : AppState) : Prop := mkViewOk
  { view_images : Forall contentOk (images s);
    view_pending : Forall pendingContentOk (pending s);
    view_position : finitePair (position (editor s));
    view_dragStart : finitePair (dragStart (editor s)) }.

(** * Properties *)

Module JSFacts.
Import JS.

Lemma eq_reflexive (a : num) : a =~= a.
Proof. destruct a; simpl; auto with qarith. Qed.

Lemma eq_symmetric (a b : num) : a =~= b -> b =~= a.
Proof. destruct a, b; simpl; auto with qarith. Qed.

Lemma eq_transitive (a b c : num) : a =~= b -> b =~= c -> a =~= c.
Proof. destruct a, b, c; simpl; try tauto. apply Qeq_trans. Qed.

Lemma lt_Num (x y : Q) : lt (Num x) (Num y) = true <-> x < y.
Proof.
  simpl. rewrite negb_true_iff. split; intros H.
  - apply Qnot_le_lt. intros L. apply Qle_bool_iff in L. congruence.
  - destruct (Qle_bool y x) eqn:E; auto. apply Qle_bool_iff in E. lra.
Qed.

Lemma le_Num (x y : Q) : le (Num x) (Num y) = true <-> x <= y.
Proof. simpl. apply Qle_bool_iff. Qed.

Lemma div_Num (x y : Q) : ~ y == 0 -> div (Num x) (Num y) = Num (x / y).
Proof.
  intros H. simpl. destruct (Qeq_bool y 0) eqn:E; auto.
  apply Qeq_bool_iff in E. contradiction.
Qed.


End JSFacts.

(** ** Tactics for the arithmetic of the model *)

Ltac jdiv := rewrite !JSFacts.div_Num by (intro; lra).
Ltac jnorm :=
  repeat (progress (cbn [JS.mul JS.add JS.sub JS.neg JS.min JS.max JS.eq]; try jdiv)).

Ltac abstract_term t lem :=
  let m := fresh "m" in
  pose proof lem; set (m := t) in *; clearbody m.

Lemma Qdiv_mul_cancel (x c : Q) : ~ c == 0 -> x / c * c == x.
Proof. intros Hc. field. exact Hc. Qed.

Ltac abstract_div x c :=
  let d := fresh "d" in
  let Hd := fresh "Hd" in
  assert (Hd : x / c * c == x) by (apply Qdiv_mul_cancel; lra);
  set (d := x / c) in *; clearbody d.

Ltac abstract_minmax :=
  repeat match goal with
  | |- context [Qmin ?a ?b] => abstract_term (Qmin a b) (Q.min_spec a b)
  | |- context [Qmax ?a ?b] => abstract_term (Qmax a b) (Q.max_spec a b)
  | |- context [?x / ?c] => abstract_div x c
  | H : context [Qmin ?a ?b] |- _ => abstract_term (Qmin a b) (Q.min_spec a b)
  | H : context [Qmax ?a ?b] |- _ => abstract_term (Qmax a b) (Q.max_spec a b)
  | H : context [?x / ?c] |- _ => abstract_div x c
  end.

Ltac split_cases :=
  repeat match goal with
  | H : _ \/ _ |- _ => destruct H
  | H : _ /\ _ |- _ => destruct H
  end.

Ltac minmax_lra := abstract_minmax; split_cases; try lra.

(** ** The framing estimator *)

Lemma faceEstimate_finite (W H : Q) :
  exists x y w h, faceEstimate (Num W) (Num H) = mkFaceRect (Num x) (Num y) (Num w) (Num h).
Proof.
  unfold faceEstimate.
  destruct (_ && _); [| destruct (JS.ge _ _)]; cbn; do 4 eexists; reflexivity.
Qed.
Lemma faceClamp_finite (W H x y w h : Q) :
  exists x' y' w' h', faceClamp (Num W) (Num H) (mkFaceRect (Num x) (Num y) (Num w) (Num h)) = mkFaceRect (Num x') (Num y') (Num w') (Num h').
Proof.
  unfold faceClamp. cbn.  do 4 eexists; reflexivity.
Qed.

Lemma limitZoom_between (a : num) : a <> JS.NaN -> JS.between 10 200 (limitZoom a).
Proof.
  destruct a as [x| | |]; intros Hn; try congruence; unfold limitZoom; simpl.
  - split; [apply Q.le_max_l|].
    apply Q.max_lub; [lra | apply Q.le_min_l].
  - split; [apply Q.le_max_l|]. apply Q.max_lub; lra.
  - lra.
Qed.

Lemma faceZoom_between (x y : num) (w h : Q) :
  JS.between 10 200 (faceZoom (mkFaceRect x y (Num w) (Num h))).
Proof.
  unfold faceZoom. cbn [faceWidth faceHeight].
  apply limitZoom_between.
  destruct (JS.gt _ _).
  - unfold JS.div. destruct (Qeq_bool h 0); cbn; congruence.
  - unfold JS.div. destruct (Qeq_bool w 0); cbn; congruence.
Qed.

Lemma between_Num lo hi a : JS.between lo hi a -> exists z, a = Num z /\ lo <= z /\ z <= hi.
Proof. destruct a; simpl; try tauto. eauto. Qed.

(** On finite sizes the estimator stays finite: the clamped rectangle and
    a zoom within the bounds. *)
Lemma estimate_finite (W H : Q) :
  exists x y w h z,
    faceClamp (Num W) (Num H) (faceEstimate (Num W) (Num H))
      = mkFaceRect (Num x) (Num y) (Num w) (Num h) /\
    faceZoom (mkFaceRect (Num x) (Num y) (Num w) (Num h)) = Num z /\
    10 <= z /\ z <= 200.
Proof.
  destruct (faceEstimate_finite W H) as (x & y & w & h & ->).
  destruct (faceClamp_finite W H x y w h) as (x' & y' & w' & h' & ->).
  destruct (between_Num _ _ _ (faceZoom_between (Num x') (Num y') w' h'))
    as (z & Ez & Hz1 & Hz2).
  exists x', y', w', h', z. auto.
Qed.

Lemma detect_between (detected : bool) (w h : Z) :
  JS.between 10 200 (fr_zoom (detectFaceAndCrop detected (JS.ofZ w) (JS.ofZ h))).
Proof.
  unfold detectFaceAndCrop, detectTry, JS.ofZ. cbn [fr_zoom].
  destruct (estimate_finite (inject_Z w) (inject_Z h))
    as (x' & y' & w' & h' & z & -> & -> & Hz).
  exact Hz.
Qed.

(** C8.  For every source size, and so for every positive one, the pan that
    the estimator computes shows the centre of the clamped candidate
    rectangle at the centre (150, 200) of the output frame under the zoom
    it chose, which is within [10, 200]. *)
Theorem estimator_centres_face (W H : Z) :
  let r := faceClamp (JS.ofZ W) (JS.ofZ H) (faceEstimate (JS.ofZ W) (JS.ofZ H)) in
  let f := detectFaceAndCrop false (JS.ofZ W) (JS.ofZ H) in
  JS.between 10 200 (fr_zoom f) /\
  displayOf (fr_zoom f) (fst (fr_position f))
    (JS.add (faceX r) (JS.div (faceWidth r) (Num 2))) =~= Num 150 /\
  displayOf (fr_zoom f) (snd (fr_position f))
    (JS.add (faceY r) (JS.div (faceHeight r) (Num 2))) =~= Num 200.
Proof.
  intros r f. subst f. unfold detectFaceAndCrop, detectTry. fold r.
  cbn [fr_zoom fr_position]. subst r. unfold JS.ofZ.
  destruct (estimate_finite (inject_Z W) (inject_Z H))
    as (x' & y' & w' & h' & z & -> & -> & Hz).
  split; [exact Hz|].
  unfold facePosition, displayOf. cbn [faceX faceY faceWidth faceHeight fst snd].
  jnorm. split; field.
Qed.

(** The scenario of C8: an 800x1200 source is in the portrait band, its
    candidate rectangle is 320x384 at (240, 180), the zoom 625/6 and the pan
    (-800/3, -375/2); the centre (400, 372) of the rectangle is shown at
    (150, 200). *)
Lemma estimate_800_1200 :
  let f := detectFaceAndCrop false (JS.ofZ 800) (JS.ofZ 1200) in
  rect_eq (faceClamp (JS.ofZ 800) (JS.ofZ 1200) (faceEstimate (JS.ofZ 800) (JS.ofZ 1200)))
    (mkFaceRect (Num 240) (Num 180) (Num 320) (Num 384)) /\
  fr_zoom f =~= Num (625 # 6) /\
  fst (fr_position f) =~= Num (- (800 # 3)) /\ snd (fr_position f) =~= Num (- (375 # 2)) /\
  displayOf (fr_zoom f) (fst (fr_position f)) (Num 400) =~= Num 150 /\
  displayOf (fr_zoom f) (snd (fr_position f)) (Num 372) =~= Num 200.
Proof. vm_compute. repeat split. Qed.

Lemma ratio_bounds (W H : Q) : 0 < H -> (0.6 < W / H <-> 0.6 * H < W) /\ (W / H < 1.5 <-> W < 1.5 * H).
Proof.
  intros HH. 
  assert (E : W == (W / H) * H) by (field; lra).
  set (r := W / H) in *. clearbody r.
  split; split; intros; nra.
Qed.

(** C2, amended.  For positive sizes with an aspect ratio strictly between
    0.6 and 1.5 the candidate rectangle has width [min (0.4 W) (0.3 H)],
    height 1.2 times that width, is horizontally centred and starts at
    [0.15 H] from the top; keeping it inside the image changes nothing. *)
Theorem portrait_band_candidate (W H : Z) :
  (0 < W)%Z -> (0 < H)%Z ->
  0.6 < inject_Z W / inject_Z H -> inject_Z W / inject_Z H < 1.5 ->
  let w := Qmin (inject_Z W * 0.4) (inject_Z H * 0.3) in
  let r := mkFaceRect (Num ((inject_Z W - w) / 2)) (Num (inject_Z H * 0.15))
             (Num w) (Num (w * 1.2)) in
  rect_eq (faceEstimate (JS.ofZ W) (JS.ofZ H)) r /\
  rect_eq (faceClamp (JS.ofZ W) (JS.ofZ H) (faceEstimate (JS.ofZ W) (JS.ofZ H))) r.
Proof.
  intros HW HH Hlo Hhi w r.
  assert (HWq : 0 < inject_Z W) by (change 0 with (inject_Z 0); rewrite <- Zlt_Qlt; exact HW).
  assert (HHq : 0 < inject_Z H) by (change 0 with (inject_Z 0); rewrite <- Zlt_Qlt; exact HH).
  assert (E : faceEstimate (JS.ofZ W) (JS.ofZ H) = r).
  { unfold faceEstimate, JS.ofZ.
    rewrite JSFacts.div_Num by lra.
    unfold JS.gt.
    replace (JS.lt (Num 0.6) (Num (inject_Z W / inject_Z H))) with true
      by (symmetry; apply JSFacts.lt_Num; exact Hlo).
    replace (JS.lt (Num (inject_Z W / inject_Z H)) (Num 1.5)) with true
      by (symmetry; apply JSFacts.lt_Num; exact Hhi).
    cbn [andb JS.mul JS.min JS.sub JS.add JS.neg]. jdiv. reflexivity. }
  rewrite E. split.
  - repeat split; apply JSFacts.eq_reflexive.
  - destruct (ratio_bounds (inject_Z W) (inject_Z H) HHq) as [[B1 _] [B2 _]].
    specialize (B1 Hlo). specialize (B2 Hhi).
    subst r. unfold faceClamp, rect_eq, JS.ofZ.
    cbn [faceX faceY faceWidth faceHeight JS.mul JS.min JS.max JS.sub JS.add JS.neg JS.eq].
    subst w. set (a := inject_Z W) in *. set (b := inject_Z H) in *. clearbody a b.
    clear E Hlo Hhi. repeat split; minmax_lra.
Qed.

(** C2, as stated, fails at a ratio of exactly 0.6: a 600x1000 source falls
    in the band of the very tall images, whose candidate is 360 wide and not
    [min (0.4 * 600) (0.3 * 1000)] = 240. *)
Lemma portrait_band_boundary_counterexample :
  0.6 <= inject_Z 600 / inject_Z 1000 /\ inject_Z 600 / inject_Z 1000 < 1.5 /\
  faceWidth (faceEstimate (JS.ofZ 600) (JS.ofZ 1000)) =~= Num 360 /\
  ~ faceWidth (faceEstimate (JS.ofZ 600) (JS.ofZ 1000))
      =~= Num (Qmin (0.4 * inject_Z 600) (0.3 * inject_Z 1000)).
Proof.
  repeat split; vm_compute; congruence.
Qed.

Lemma portrait_band_candidate_witness :
  rect_eq (faceEstimate (JS.ofZ 800) (JS.ofZ 1200))
    (mkFaceRect (Num 240) (Num 180) (Num 320) (Num 384)).
Proof.
  destruct (portrait_band_candidate 800 1200) as [E _];
    [lia | lia | vm_compute; reflexivity | vm_compute; reflexivity |].
  destruct E as (E1 & E2 & E3 & E4).
  repeat split; (eapply JSFacts.eq_transitive; [eassumption | vm_compute; reflexivity]).
Defined.


Lemma limitZoom_PInf : limitZoom JS.PInf =~= Num 200.
Proof. vm_compute. reflexivity. Qed.







(** ** The viewport mappings *)

(** C7.  For a zoom in [10, 200] and any pan, the display mapping
    [source * (zoom / 100) + pan] and the source mapping
    [(display - pan) / (zoom / 100)] of [handleSave] are inverse to each
    other, and the place [handleSave] draws a source coordinate at is the
    place the preview displays it at. *)
Theorem viewport_mappings_inverse (z px s d : Q) :
  10 <= z -> z <= 200 ->
  sourceOf (Num z) (Num px) (displayOf (Num z) (Num px) (Num s)) =~= Num s /\
  displayOf (Num z) (Num px) (sourceOf (Num z) (Num px) (Num d)) =~= Num d /\
  displayOf (Num z) (Num px) (Num s) =~= Num (s * (z / 100) + px) /\
  sourceOf (Num z) (Num px) (Num d) =~= Num ((d - px) / (z / 100)) /\
  destOf (Num z) (Num px) (Num s) =~= displayOf (Num z) (Num px) (Num s) /\
  (forall W H py,
      let g := saveGeometry W H (Num z) (Num px, py) in
      sourceLeft g =~= sourceOf (Num z) (Num px) (Num 0) /\
      sourceRight g = sourceOf (Num z) (Num px) (Num 300) /\
      destLeft g = destOf (Num z) (Num px) (clampedSourceLeft g)).
Proof.
  intros Hlo Hhi.
  assert (Hz : ~ z / 100 == 0).
  { intros E. assert (z == z / 100 * 100) by (field; lra). nra. }
  unfold sourceOf, displayOf, destOf, saveGeometry.
  cbn [sourceLeft sourceRight destLeft clampedSourceLeft fst snd].
  rewrite (JSFacts.div_Num z 100) by lra.
  cbn [JS.mul JS.add JS.neg JS.sub].
  rewrite !(JSFacts.div_Num _ (z / 100)) by exact Hz.
  cbn [JS.mul JS.add JS.neg JS.sub JS.eq].
  repeat split; field; lra.
Qed.

Lemma viewport_mappings_inverse_witness :
  sourceOf (Num 100) (Num (-2000)) (displayOf (Num 100) (Num (-2000)) (Num 7)) =~= Num 7 /\
  displayOf (Num 100) (Num (-2000)) (sourceOf (Num 100) (Num (-2000)) (Num 300)) =~= Num 300.
Proof.
  destruct (viewport_mappings_inverse 100 (-2000) 7 300) as (A & B & _); [lra | lra |].
  split; [exact A | exact B].
Defined.

(** ** The greyscale transform *)

Lemma inject_Z_floor (n : Z) : Qfloor (inject_Z n) = n.
Proof. apply Qfloor_Z. Qed.

Lemma roundHalfEven_Z (q : Q) (n : Z) : q == inject_Z n -> roundHalfEven q = n.
Proof.
  intros E. unfold roundHalfEven.
  assert (F : Qfloor q = n) by (rewrite (Qfloor_comp _ _ E); apply Qfloor_Z).
  rewrite F.
  assert (D : Qle_bool (1 # 2) (q - inject_Z n) = false).
  { destruct (Qle_bool _ _) eqn:B; auto. apply Qle_bool_iff in B. lra. }
  rewrite D. reflexivity.
Qed.

Lemma roundHalfEven_near (q : Q) :
  q - (1 # 2) <= inject_Z (roundHalfEven q) /\ inject_Z (roundHalfEven q) <= q + (1 # 2).
Proof.
  unfold roundHalfEven.
  pose proof (Qfloor_le q) as L. pose proof (Qlt_floor q) as U.
  rewrite inject_Z_plus in U. change (inject_Z 1) with 1 in U.
  set (f := Qfloor q) in *.
  destruct (Qle_bool (1 # 2) (q - inject_Z f)) eqn:A; cbn [negb].
  - apply Qle_bool_iff in A.
    destruct (Qle_bool (q - inject_Z f) (1 # 2)) eqn:B; cbn [negb].
    + apply Qle_bool_iff in B.
      destruct (Z.even f); [|rewrite inject_Z_plus; change (inject_Z 1) with 1]; lra.
    + rewrite inject_Z_plus; change (inject_Z 1) with 1; lra.
  - assert (q - inject_Z f < 1 # 2).
    { apply Qnot_le_lt. intros C. apply Qle_bool_iff in C. congruence. }
    lra.
Qed.

Lemma toUint8Clamped_range (x : num) : (0 <= toUint8Clamped x <= 255)%Z.
Proof.
  destruct x as [q| | |]; simpl; try lia.
  destruct (Qle_bool q 0) eqn:A; [lia|].
  destruct (Qle_bool 255 q) eqn:B; [lia|].
  assert (0 < q) by (apply Qnot_le_lt; intros C; apply Qle_bool_iff in C; congruence).
  assert (q < 255) by (apply Qnot_le_lt; intros C; apply Qle_bool_iff in C; congruence).
  destruct (roundHalfEven_near q) as [L U].
  split.
  - assert (-1 < inject_Z (roundHalfEven q)) by lra.
    change (-1) with (inject_Z (-1)) in H1. rewrite <- Zlt_Qlt in H1. lia.
  - assert (inject_Z (roundHalfEven q) < 256) by lra.
    change 256 with (inject_Z 256) in H1. rewrite <- Zlt_Qlt in H1. lia.
Qed.

Lemma toUint8Clamped_byte (q : Q) (n : Z) :
  (0 <= n <= 255)%Z -> q == inject_Z n -> toUint8Clamped (Num q) = n.
Proof.
  intros Hn E. cbn [toUint8Clamped].
  assert (L : 0 <= inject_Z n) by (change 0 with (inject_Z 0); rewrite <- Zle_Qle; lia).
  assert (U : inject_Z n <= 255) by (change 255 with (inject_Z 255); rewrite <- Zle_Qle; lia).
  destruct (Qle_bool q 0) eqn:A.
  - apply Qle_bool_iff in A. assert (Z0 : inject_Z n == inject_Z 0) by (change (inject_Z 0) with 0; lra).
    apply (proj1 (inject_Z_injective _ _)) in Z0. rewrite Z0. reflexivity.
  - destruct (Qle_bool 255 q) eqn:B.
    + apply Qle_bool_iff in B. assert (Z0 : inject_Z n == inject_Z 255) by (change (inject_Z 255) with 255; lra).
      apply (proj1 (inject_Z_injective _ _)) in Z0. rewrite Z0. reflexivity.
    + apply roundHalfEven_Z. exact E.
Qed.

Lemma luma_grey (n : Z) :
  luma (JS.ofZ n) (JS.ofZ n) (JS.ofZ n) =~= JS.ofZ n.
Proof. unfold luma, JS.ofZ. simpl. ring. Qed.

Lemma list_ind4 {A : Type} (P : list A -> Prop) :
  P [] -> (forall a, P [a]) -> (forall a b, P [a; b]) -> (forall a b c, P [a; b; c]) ->
  (forall a b c d l, P l -> P (a :: b :: c :: d :: l)) ->
  forall l, P l.
Proof.
  intros H0 H1 H2 H3 H4.
  refine (fix F (l : list A) : P l :=
            match l with
            | [] => H0
            | [a] => H1 a
            | [a; b] => H2 a b
            | [a; b; c] => H3 a b c
            | a :: b :: c :: d :: l' => H4 a b c d l' (F l')
            end).
Qed.

Lemma toUint8Clamped_luma_grey (x : num) :
  let n := toUint8Clamped x in
  toUint8Clamped (luma (JS.ofZ n) (JS.ofZ n) (JS.ofZ n)) = n.
Proof.
  intros n. apply toUint8Clamped_byte.
  - apply toUint8Clamped_range.
  - unfold luma, JS.ofZ. cbn [JS.mul JS.add]. ring.
Qed.

Lemma greyscale_idempotent (data : list Z) :
  greyscale (greyscale data) = greyscale data.
Proof.
  induction data as [| a | a b | a b c | a b c d l IH] using list_ind4;
    try reflexivity.
  - cbn [greyscale]. rewrite !toUint8Clamped_luma_grey. reflexivity.
  - cbn [greyscale]. rewrite !toUint8Clamped_luma_grey, IH. reflexivity.
Qed.

Lemma greyscale_pixels (px : list Pixel) :
  toPixels (greyscale (flat_map (fun p : Pixel => let '(r, g, b, a) := p in [r; g; b; a]) px))
  = map greyPixelSpec px.
Proof.
  induction px as [| [[[r g] b] a] px IH]; [reflexivity|].
  cbn [flat_map app greyscale toPixels map greyPixelSpec]. rewrite IH. reflexivity.
Qed.

Lemma luma_bytes (r g b : Z) :
  isByte r -> isByte g -> isByte b ->
  let q := inject_Z r * 0.299 + inject_Z g * 0.587 + inject_Z b * 0.114 in
  luma (JS.ofZ r) (JS.ofZ g) (JS.ofZ b) = Num q /\ 0 <= q /\ q <= 255.
Proof.
  unfold isByte. intros Hr Hg Hb. split; [reflexivity|].
  assert (0 <= inject_Z r /\ inject_Z r <= 255).
  { change 0 with (inject_Z 0). change 255 with (inject_Z 255). rewrite <- !Zle_Qle. lia. }
  assert (0 <= inject_Z g /\ inject_Z g <= 255).
  { change 0 with (inject_Z 0). change 255 with (inject_Z 255). rewrite <- !Zle_Qle. lia. }
  assert (0 <= inject_Z b /\ inject_Z b <= 255).
  { change 0 with (inject_Z 0). change 255 with (inject_Z 255). rewrite <- !Zle_Qle. lia. }
  lra.
Qed.

Lemma toUint8Clamped_near (q : Q) :
  0 <= q -> q <= 255 ->
  q - (1 # 2) <= inject_Z (toUint8Clamped (Num q)) /\
  inject_Z (toUint8Clamped (Num q)) <= q + (1 # 2).
Proof.
  intros L U. cbn [toUint8Clamped].
  destruct (Qle_bool q 0) eqn:A.
  - apply Qle_bool_iff in A. change (inject_Z 0) with 0. lra.
  - destruct (Qle_bool 255 q) eqn:B.
    + apply Qle_bool_iff in B. change (inject_Z 255) with 255. lra.
    + apply roundHalfEven_near.
Qed.

(** C6.  On the rasterized buffer the greyscale loop maps every pixel
    [(R, G, B, A)] to [(g, g, g, A)], where [g] is [0.299 R + 0.587 G +
    0.114 B] rounded to the nearest byte and the alpha is unchanged; the
    transform leaves an already grey pixel alone, so applying it twice gives
    the same buffer as applying it once. *)
Theorem greyscale_luma_idempotent (c : Canvas) (r g b a : Z) :
  isByte r -> isByte g -> isByte b ->
  pixels (putImageData c (greyscale (getImageData c))) = map greyPixelSpec (pixels c) /\
  (exists grey,
     greyPixelSpec (r, g, b, a) = (grey, grey, grey, a) /\ isByte grey /\
     let q := inject_Z r * 0.299 + inject_Z g * 0.587 + inject_Z b * 0.114 in
     q - (1 # 2) <= inject_Z grey /\ inject_Z grey <= q + (1 # 2)) /\
  greyPixelSpec (greyPixelSpec (r, g, b, a)) = greyPixelSpec (r, g, b, a) /\
  greyscale (greyscale (getImageData c)) = greyscale (getImageData c) /\
  (let once := putImageData c (greyscale (getImageData c)) in
   putImageData once (greyscale (getImageData once)) = once).
Proof.
  intros Hr Hg Hb.
  split; [apply greyscale_pixels|].
  split.
  { destruct (luma_bytes r g b Hr Hg Hb) as (E & L & U).
    eexists. split; [reflexivity|]. split; [apply toUint8Clamped_range|].
    rewrite E. apply toUint8Clamped_near; assumption. }
  split.
  { cbn [greyPixelSpec]. rewrite toUint8Clamped_luma_grey. reflexivity. }
  split; [apply greyscale_idempotent|].
  cbn zeta. unfold putImageData, getImageData. cbn [width height pixels].
  rewrite !greyscale_pixels. f_equal.
  rewrite map_map. apply map_ext. intros [[[r0 g0] b0] a0].
  cbn [greyPixelSpec]. rewrite toUint8Clamped_luma_grey. reflexivity.
Qed.

Lemma greyscale_luma_idempotent_witness :
  greyPixelSpec (greyPixelSpec (200, 100, 50, 255)%Z) = greyPixelSpec (200, 100, 50, 255)%Z.
Proof.
  apply (greyscale_luma_idempotent (mkCanvas 1 1 [(200, 100, 50, 255)%Z]) 200 100 50 255);
    unfold isByte; lia.
Defined.

(** ** The rasterizer *)

Lemma mapIndexed_length {A B : Type} (f : Z -> A -> B) (i : Z) (l : list A) :
  length (mapIndexed f i l) = length l.
Proof.
  revert i. induction l as [| a l IH]; intros i; simpl; [reflexivity|].
  rewrite IH. reflexivity.
Qed.

Lemma mapIndexed_Forall {A B : Type} (P : B -> Prop) (f : Z -> A -> B) (l : list A) :
  forall i,
    (forall j a, (i <= j < i + Z.of_nat (length l))%Z -> P (f j a)) ->
    Forall P (mapIndexed f i l).
Proof.
  induction l as [| a l IH]; intros i H; cbn [mapIndexed]; constructor.
  - apply H. cbn [length]. lia.
  - apply IH. intros j b Hj. apply H. cbn [length]. lia.
Qed.

Lemma paint_size (c : Canvas) (f : Z -> Z -> Pixel -> Pixel) :
  width (paint c f) = width c /\ height (paint c f) = height c /\
  length (pixels (paint c f)) = length (pixels c).
Proof. unfold paint. cbn [width height pixels]. rewrite mapIndexed_length. auto. Qed.

Lemma setSize_length (w h : Z) :
  (0 <= w * h)%Z -> Z.of_nat (length (pixels (setSize w h))) = (w * h)%Z.
Proof.
  intros H. unfold setSize. cbn [pixels]. rewrite repeat_length. apply Z2Nat.id. exact H.
Qed.

Lemma fillRect_whole (c : Canvas) (style : Pixel) :
  (0 < width c)%Z ->
  Z.of_nat (length (pixels c)) = (width c * height c)%Z ->
  Forall (fun p => p = style) (pixels (fillRect c style 0 0 (width c) (height c))).
Proof.
  intros Hw Hlen. unfold fillRect, paint. cbn [pixels].
  apply mapIndexed_Forall. intros j a Hj.
  rewrite Hlen in Hj.
  assert (0 <= j mod width c < width c)%Z by (apply Z.mod_pos_bound; lia).
  assert (0 <= j / width c)%Z by (apply Z.div_pos; lia).
  assert (j / width c < height c)%Z by (apply Z.div_lt_upper_bound; lia).
  replace (0 <=? j mod width c)%Z with true by (symmetry; apply Z.leb_le; lia).
  replace (j mod width c <? 0 + width c)%Z with true by (symmetry; apply Z.ltb_lt; lia).
  replace (0 <=? j / width c)%Z with true by (symmetry; apply Z.leb_le; lia).
  replace (j / width c <? 0 + height c)%Z with true by (symmetry; apply Z.ltb_lt; lia).
  reflexivity.
Qed.

Section RasterizerFacts.

Variable render : Image -> Q -> Q -> Pixel -> Pixel.

Lemma drawImage_size (c : Canvas) (img : Image) (sx sy sw sh dx dy dw dh : num) :
  let c' := drawImage render c img sx sy sw sh dx dy dw dh in
  width c' = width c /\ height c' = height c /\
  length (pixels c') = length (pixels c).
Proof.
  unfold drawImage.
  cbn zeta.
  destruct sx; auto; destruct sy; auto; destruct sw; auto; destruct sh; auto;
    destruct dx; auto; destruct dy; auto; destruct dw; auto; destruct dh; auto.
  destruct (_ || _); auto.
  destruct (_ || _); auto.
  apply paint_size.
Qed.

(** Nothing is painted when the source rectangle, clipped to the image, is
    empty. *)
Lemma drawImage_nothing (c : Canvas) (img : Image) (sx sy sw sh dx dy dw dh : Q) :
  Qmin (inject_Z (naturalWidth img)) (Qmax sx (sx + sw)) <= Qmax 0 (Qmin sx (sx + sw)) \/
  Qmin (inject_Z (naturalHeight img)) (Qmax sy (sy + sh)) <= Qmax 0 (Qmin sy (sy + sh)) ->
  drawImage render c img (Num sx) (Num sy) (Num sw) (Num sh)
    (Num dx) (Num dy) (Num dw) (Num dh) = c.
Proof.
  intros H. unfold drawImage.
  destruct (_ || _); [reflexivity|].
  destruct H as [H | H]; apply Qle_bool_iff in H; rewrite H;
    rewrite ?orb_true_r; reflexivity.
Qed.

End RasterizerFacts.

Lemma zoomFactor_pos (z : Q) : 10 <= z -> 0 < z / 100.
Proof.
  intros H. assert (E : z / 100 * 100 == z) by (field; lra).
  set (f := z / 100) in *. clearbody f. lra.
Qed.

Lemma Qdiv_lt_mono (a b f : Q) : 0 < f -> a < b -> a / f < b / f.
Proof.
  intros Hf Hab.
  assert (Ea : a / f * f == a) by (field; lra).
  assert (Eb : b / f * f == b) by (field; lra).
  set (x := a / f) in *. set (y := b / f) in *. clearbody x y. nra.
Qed.

(** The geometry of [handleSave] on finite inputs. *)
Lemma saveGeometry_finite (W H z px py : Q) :
  10 <= z ->
  let f := z / 100 in
  let sl := - px / f in let st := - py / f in
  let sr := (- px + 300) / f in let sb := (- py + 400) / f in
  let cl := Qmax 0 sl in let ct := Qmax 0 st in
  let cw := Qmin W sr + - cl in let ch := Qmin H sb + - ct in
  saveGeometry (Num W) (Num H) (Num z) (Num px, Num py) =
  mkSaveGeometry (Num cl) (Num ct) (Num cw) (Num ch)
    (Num ((cl + - sl) * f)) (Num ((ct + - st) * f)) (Num (cw * f)) (Num (ch * f))
    (Num sl) (Num st) (Num sr) (Num sb).
Proof.
  intros Hz. pose proof (zoomFactor_pos z Hz) as Hf.
  unfold saveGeometry. cbn [fst snd].
  rewrite (JSFacts.div_Num z 100) by lra.
  cbn [JS.neg JS.add].
  rewrite !(JSFacts.div_Num _ (z / 100)) by lra.
  reflexivity.
Qed.

Lemma greyPixelSpec_white : greyPixelSpec white = white.
Proof. vm_compute. reflexivity. Qed.

Lemma putImageData_greyscale_size (c : Canvas) :
  let c' := putImageData c (greyscale (getImageData c)) in
  width c' = width c /\ height c' = height c /\ length (pixels c') = length (pixels c).
Proof.
  cbn zeta. unfold putImageData, getImageData. cbn [width height pixels].
  rewrite greyscale_pixels, length_map. auto.
Qed.

Lemma putImageData_greyscale_white (c : Canvas) :
  Forall (fun p => p = white) (pixels c) ->
  Forall (fun p => p = white) (pixels (putImageData c (greyscale (getImageData c)))).
Proof.
  intros H. unfold putImageData, getImageData. cbn [pixels].
  rewrite greyscale_pixels. apply Forall_map.
  eapply Forall_impl; [|exact H]. intros p ->. apply greyPixelSpec_white.
Qed.

Lemma inject_Z_nonneg (n : Z) : (0 <= n)%Z -> 0 <= inject_Z n.
Proof. intros H. change 0 with (inject_Z 0). rewrite <- Zle_Qle. exact H. Qed.

Section Commit.

Variable render : Image -> Q -> Q -> Pixel -> Pixel.

Lemma blank_canvas :
  let c := fillRect (setSize 300 400) white 0 0 300 400 in
  width c = 300%Z /\ height c = 400%Z /\
  Z.of_nat (length (pixels c)) = 120000%Z /\
  Forall (fun p => p = white) (pixels c).
Proof.
  cbn zeta.
  assert (L : Z.of_nat (length (pixels (setSize 300 400))) = 120000%Z)
    by (rewrite setSize_length; lia).
  destruct (paint_size (setSize 300 400)
              (fun px py old =>
                 if ((0 <=? px) && (px <? 0 + 300) && (0 <=? py) && (py <? 0 + 400))%Z
                 then white else old)) as (Ew & Eh & El).
  fold (fillRect (setSize 300 400) white 0 0 300 400) in Ew, Eh, El.
  rewrite Ew, Eh, El. repeat split; try reflexivity; try exact L.
  apply (fillRect_whole (setSize 300 400) white); [reflexivity|exact L].
Qed.

(** C1.  For every source image and every viewport with a zoom in
    [10, 200] and any pan, the committed canvas is exactly 300x400 pixels;
    when the visible source rectangle clamped to the image has zero or
    negative width or height, every pixel is the opaque white background. *)
Theorem commit_size_and_background (img : Image) (z px py : Q) (isGreyscale : bool) :
  (0 <= naturalWidth img)%Z -> (0 <= naturalHeight img)%Z ->
  10 <= z -> z <= 200 ->
  let out := handleSaveCanvas render img (Num z) (Num px, Num py) isGreyscale in
  let g := saveGeometry (JS.ofZ (naturalWidth img)) (JS.ofZ (naturalHeight img))
             (Num z) (Num px, Num py) in
  width out = 300%Z /\ height out = 400%Z /\
  Z.of_nat (length (pixels out)) = (300 * 400)%Z /\
  (JS.le (clampedSourceWidth g) (Num 0) = true \/
   JS.le (clampedSourceHeight g) (Num 0) = true ->
   Forall (fun p => p = white) (pixels out)).
Proof.
  intros HW HH Hlo Hhi out g.
  destruct blank_canvas as (Bw & Bh & Bl & Bwhite).
  set (blank := fillRect (setSize 300 400) white 0 0 300 400) in *.
  set (drawn := drawImage render blank img
      (clampedSourceLeft g) (clampedSourceTop g)
      (clampedSourceWidth g) (clampedSourceHeight g)
      (destLeft g) (destTop g) (destWidth g) (destHeight g)).
  assert (Eout : out = if isGreyscale
                       then putImageData drawn (greyscale (getImageData drawn))
                       else drawn) by reflexivity.
  destruct (drawImage_size render blank img
      (clampedSourceLeft g) (clampedSourceTop g)
      (clampedSourceWidth g) (clampedSourceHeight g)
      (destLeft g) (destTop g) (destWidth g) (destHeight g)) as (Dw & Dh & Dl).
  fold drawn in Dw, Dh, Dl.
  destruct (putImageData_greyscale_size drawn) as (Pw & Ph & Pl).
  assert (Hsize : width out = 300%Z /\ height out = 400%Z /\
                  Z.of_nat (length (pixels out)) = (300 * 400)%Z).
  { rewrite Eout. destruct isGreyscale.
    - rewrite Pw, Ph, Pl, Dw, Dh, Dl. auto.
    - rewrite Dw, Dh, Dl. auto. }
  destruct Hsize as (Sw & Sh & Sl). repeat split; try assumption.
  intros Hempty.
  assert (Ed : drawn = blank).
  { subst drawn g. unfold JS.ofZ in *.
    pose proof (inject_Z_nonneg _ HW) as HWq. pose proof (inject_Z_nonneg _ HH) as HHq.
    pose proof (zoomFactor_pos z Hlo) as Hf.
    assert (Hx : - px / (z / 100) < (- px + 300) / (z / 100))
      by (apply Qdiv_lt_mono; lra).
    assert (Hy : - py / (z / 100) < (- py + 400) / (z / 100))
      by (apply Qdiv_lt_mono; lra).
    rewrite saveGeometry_finite in * by exact Hlo.
    cbn [clampedSourceLeft clampedSourceTop clampedSourceWidth clampedSourceHeight
         destLeft destTop destWidth destHeight] in *.
    apply drawImage_nothing.
    set (W := inject_Z (naturalWidth img)) in *.
    set (H := inject_Z (naturalHeight img)) in *.
    set (f := z / 100) in *.
    set (sl := - px / f) in *. set (sr := (- px + 300) / f) in *.
    set (st := - py / f) in *. set (sb := (- py + 400) / f) in *.
    clearbody W H f sl sr st sb.
    destruct Hempty as [E | E]; apply JSFacts.le_Num in E; [left | right];
      minmax_lra. }
  rewrite Eout, Ed. destruct isGreyscale.
  - apply putImageData_greyscale_white. exact Bwhite.
  - exact Bwhite.
Qed.

End Commit.

(** ** Saving and accepting records *)

Lemma handleImageEdit_length images imageId url c :
  length (handleImageEdit images imageId url c) = length images.
Proof. unfold handleImageEdit. apply length_map. Qed.

(** C10.  A save attaches the cropped result to the record and also sets
    its edited and accepted flags, whatever they were: a record that has
    just been saved is accepted.  Other records are left alone. *)
Theorem save_marks_record_accepted
    (images : list ProcessedImage) (imageId url : string) (c : option CropData)
    (i : nat) (img : ProcessedImage) :
  nth_error images i = Some img ->
  (id img = imageId ->
   exists img',
     nth_error (handleImageEdit images imageId url c) i = Some img' /\
     isAccepted img' = true /\ isEdited img' = true /\
     croppedUrl img' = Some url /\ crop img' = c /\
     id img' = id img /\ previewUrl img' = previewUrl img /\
     isProcessed img' = isProcessed img) /\
  (id img <> imageId ->
   nth_error (handleImageEdit images imageId url c) i = Some img).
Proof.
  intros Hi. unfold handleImageEdit.
  rewrite nth_error_map, Hi. cbn [option_map].
  split; intros E.
  - apply String.eqb_eq in E. rewrite E. eexists. split; [reflexivity|].
    cbn. repeat split.
  - apply String.eqb_neq in E. rewrite E. reflexivity.
Qed.

Lemma save_marks_record_accepted_witness :
  exists img',
    nth_error (handleImageEdit [sampleRecord] sampleId sampleCropUrl None) 0
      = Some img' /\ isAccepted img' = true.
Proof.
  destruct (save_marks_record_accepted [sampleRecord] sampleId sampleCropUrl None
              0 sampleRecord eq_refl) as [H _].
  destruct (H eq_refl) as (img' & E & A & _).
  exists img'. split; assumption.
Defined.

Lemma handleAcceptImage_crop images sel imageId accepted :
  map crop (handleAcceptImage images sel imageId accepted) = map crop images /\
  map croppedUrl (handleAcceptImage images sel imageId accepted)
    = map croppedUrl images.
Proof.
  unfold handleAcceptImage. rewrite !map_map.
  split; apply map_ext; intros img;
    destruct (String.eqb (id img) imageId); [|reflexivity| |reflexivity];
    destruct (_ && _); reflexivity.
Qed.

Lemma run_reachable (evs : list Event) :
  Forall validEvent evs -> reachable (run evs).
Proof.
  unfold run. generalize initialState, reachable_initial.
  induction evs as [| ev evs IH]; intros s Hs Hv; cbn [fold_left]; [exact Hs|].
  inversion Hv; subst. apply IH; [|assumption].
  apply reachable_step; assumption.
Qed.

Lemma acceptedWithoutSave_reachable : reachable acceptedWithoutSave.
Proof.
  apply run_reachable. repeat constructor.
Qed.

(** C3, as stated, fails: in the session where a processed record is
    accepted without a save, the record is accepted and has no crop result;
    no save was triggered, and its [croppedUrl] is still the preview
    placeholder of the upload. *)
Lemma accepted_without_crop_counterexample :
  reachable acceptedWithoutSave /\
  exists img,
    images acceptedWithoutSave = [img] /\
    isAccepted img = true /\ hasCropResult img = false /\ crop img = None /\
    croppedUrl img = Some (previewUrl img).
Proof.
  split; [apply acceptedWithoutSave_reachable|].
  eexists. split; [reflexivity|]. cbn. repeat split.
Qed.

(** ** Invariants of the session *)

Lemma markProcessed_ok (img : ProcessedImage) : freshOk img -> imageOk (markProcessed img).
Proof.
  intros (Hu & He & Ha & Hc). constructor; cbn; try assumption; try reflexivity.
  - rewrite Ha. discriminate.
  - unfold hasCropResult. cbn. rewrite Hc. discriminate.
  - intros c E. rewrite Hc in E. discriminate.
Qed.

Lemma newImage_fresh (entry : string * File * string) :
  truthyString (snd entry) = true -> freshOk (newImage entry).
Proof. destruct entry as [[i f] u]. cbn. intros H. repeat split. exact H. Qed.

Lemma removeNth_Forall {A : Type} (P : A -> Prop) (k : nat) (l : list A) :
  Forall P l -> Forall P (removeNth k l).
Proof.
  revert k. induction l as [| a l IH]; intros k H; [destruct k; constructor|].
  inversion H; subst. destruct k; cbn; [assumption|]. constructor; auto.
Qed.

Lemma handleImageEdit_ok images imageId url c :
  truthyString url = true -> JS.between 10 200 (c_zoom c) ->
  Forall imageOk images -> Forall imageOk (handleImageEdit images imageId url (Some c)).
Proof.
  intros Hu Hz H. unfold handleImageEdit. apply Forall_map.
  eapply Forall_impl; [|exact H]. intros img [P C U A S Z].
  destruct (String.eqb (id img) imageId); [|constructor; assumption].
  constructor; cbn; auto.
  intros c' E. injection E as <-. exact Hz.
Qed.

Lemma handleAcceptImage_ok images sel imageId accepted :
  Forall imageOk images -> Forall imageOk (handleAcceptImage images sel imageId accepted).
Proof.
  intros H. unfold handleAcceptImage. apply Forall_map.
  eapply Forall_impl; [|exact H]. intros img [P C U A S Z].
  destruct (String.eqb (id img) imageId); [|constructor; assumption].
  destruct (_ && _); constructor; cbn; auto.
  - intros ->. reflexivity.
  - unfold hasCropResult in *. cbn. destruct accepted; auto.
Qed.

Lemma handleDeleteImage_ok images sel imageId :
  Forall imageOk images -> Forall imageOk (fst (handleDeleteImage images sel imageId)).
Proof.
  intros H. cbn. apply Forall_forall. intros img Hin.
  apply filter_In in Hin. destruct Hin as [Hin _].
  rewrite Forall_forall in H. auto.
Qed.

Lemma getOptimalZoom_between (natural : option (Z * Z)) :
  JS.between 10 200 (getOptimalZoom (naturalSize natural)).
Proof.
  destruct natural as [[w h]|]; cbn [naturalSize getOptimalZoom]; [|cbn; lra].
  unfold JS.ofZ.
  assert (Hmax : (exists m, JS.max (JS.div (Num 300) (Num (inject_Z w)))
                              (JS.div (Num 400) (Num (inject_Z h))) = Num m) \/
                 JS.max (JS.div (Num 300) (Num (inject_Z w)))
                        (JS.div (Num 400) (Num (inject_Z h))) = JS.PInf).
  { unfold JS.div.
    destruct (Qeq_bool (inject_Z w) 0), (Qeq_bool (inject_Z h) 0); cbn; eauto. }
  destruct Hmax as [(m & ->) | ->].
  - destruct (JS.gt (Num m) (Num 1)) eqn:G; [|cbn; lra].
    apply JSFacts.lt_Num in G. cbn [JS.mul JS.min JS.between].
    split; minmax_lra.
  - cbn. lra.
Qed.

Lemma selectionEffect_between sel natural e :
  (forall img, sel = Some img -> imageOk img) ->
  JS.between 10 200 (zoom e) ->
  JS.between 10 200 (zoom (selectionEffect sel natural e)).
Proof.
  intros Hsel He. destruct sel as [img|]; [|exact He].
  specialize (Hsel img eq_refl). cbn [selectionEffect].
  destruct (crop img) as [c|] eqn:Ec; cbn [zoom].
  - pose proof (ok_zoom img Hsel c Ec) as Hz.
    destruct (c_zoom c) as [q| | |]; cbn in Hz; try tauto.
    cbn [JS.truthy]. destruct (Qeq_bool q 0); cbn; [lra|assumption].
  - apply getOptimalZoom_between.
Qed.

Lemma findSelected_In images sel img :
  findSelected images sel = Some img -> In img images.
Proof.
  destruct sel as [s|]; cbn; [|discriminate].
  intros H. apply find_some in H. tauto.
Qed.

Lemma step_preserves (s : AppState) (ev : Event) :
  validEvent ev -> stateOk s -> stateOk (step s ev).
Proof.
  intros Hv [Hi Hp He].
  destruct ev; cbn [step validEvent] in *.
  - (* Upload *)
    destruct files as [| f files]; [constructor; assumption|].
    constructor; cbn [images pending editor]; try assumption.
    apply Forall_app. split; [assumption|]. constructor; [|constructor].
    split; cbn [capturedImages newImages]; [assumption|].
    apply Forall_map. eapply Forall_impl; [|exact Hv].
    intros entry. apply newImage_fresh.
  - (* ProcessingDone *)
    destruct (nth_error (pending s) k) as [p|] eqn:Ek; [|constructor; assumption].
    apply nth_error_In in Ek. rewrite Forall_forall in Hp.
    destruct (Hp p Ek) as [Hc Hn].
    constructor; cbn; try assumption.
    + apply Forall_app. split; [assumption|].
      apply Forall_map. eapply Forall_impl; [|exact Hn]. apply markProcessed_ok.
    + apply removeNth_Forall. apply Forall_forall. exact Hp.
  - (* SelectImage *) constructor; assumption.
  - (* DeleteImage *)
    pose proof (handleDeleteImage_ok (images s) (selectedImageId s) imageId Hi) as Hd.
    destruct (handleDeleteImage _ _ _) as [l sel]. constructor; assumption.
  - (* AcceptImage *)
    constructor; cbn; try assumption. apply handleAcceptImage_ok. assumption.
  - (* SelectionEffect *)
    constructor; cbn; try assumption.
    apply selectionEffect_between; [|assumption].
    intros img E. apply findSelected_In in E.
    rewrite Forall_forall in Hi. auto.
  - (* DetectFace *)
    constructor; cbn; try assumption.
    destruct target as [| | [| | w h]];
      cbn [runDetectFaceAndCrop stateOf setIsDetecting zoom]; try assumption.
    apply detect_between.
  - constructor; assumption.
  - constructor; cbn; try assumption.
    unfold handleMouseMove. destruct (negb _); assumption.
  - constructor; assumption.
  - constructor; assumption.
  - constructor; assumption.
  - constructor; cbn; try assumption. lra.
  - (* SaveCrop *)
    destruct (selectedImageId s) as [sel|] eqn:Es; [|constructor; assumption].
    destruct (findSelected (images s) (Some sel)) as [img|] eqn:Ef;
      [|constructor; assumption].
    destruct (truthyString sel); [|constructor; assumption].
    constructor; cbn; try assumption.
    unfold onImageSave. apply handleImageEdit_ok; try assumption.
    + unfold savedCrop. destruct (cropRect (editor s)) as [[[x y] w] h].
      cbn. rewrite Hv. exact Hv.
    + unfold savedCrop. destruct (cropRect (editor s)) as [[[x y] w] h].
      cbn. exact He.
  - constructor; cbn; try assumption. lra.
  - constructor; assumption.
Qed.

Lemma reachable_ok (s : AppState) : reachable s -> stateOk s.
Proof.
  induction 1 as [| s ev Hs IH Hv].
  - constructor; cbn; try constructor; lra.
  - apply step_preserves; assumption.
Qed.

(** ** Zoom bounds *)

Lemma limitZoom_in_range (v : num) : JS.between 10 200 v -> limitZoom v =~= v.
Proof.
  destruct v as [q| | |]; cbn; try tauto. intros [L U]. minmax_lra.
Qed.

(** C5, as stated, fails: a zoom request outside [10, 200] is stored as it
    comes, by the slider handler and by the restore of a saved crop. *)
Lemma zoom_request_stored_unclamped_counterexample :
  zoom (handleZoomChange [Num 500] initialEditor) = Num 500 /\
  ~ JS.between 10 200 (zoom (handleZoomChange [Num 500] initialEditor)) /\
  (let saved := mkProcessedImage sampleId sampleFile samplePreviewUrl
                  (Some sampleCropUrl) true true true
                  (Some (mkCropData (Num 0) (Num 0) (Num 300) (Num 400) (Num 500)
                           (Num 0, Num 0) (Some sampleCropUrl) (Some true))) in
   zoom (selectionEffect (Some saved) None initialEditor) = Num 500).
Proof.
  split; [reflexivity|]. split; [|reflexivity].
  cbn. intros [_ H]. revert H. apply Qlt_not_le. reflexivity.
Qed.

(** C5, amended.  In every reachable state the zoom of the editor and of
    every saved crop is within [10, 200].  The estimator clamps the zoom it
    computes into that range, and clamping a value already in range changes
    nothing; the slider handler stores the value it is given unchanged, the
    range being that of the slider. *)
Theorem zoom_within_bounds (s : AppState) (v : num) :
  reachable s -> JS.between 10 200 v ->
  JS.between 10 200 (zoom (editor s)) /\
  (forall img c, In img (images s) -> crop img = Some c ->
                 JS.between 10 200 (c_zoom c)) /\
  (forall x, x <> JS.NaN -> JS.between 10 200 (limitZoom x)) /\
  (forall w h detected,
      JS.between 10 200 (fr_zoom (detectFaceAndCrop detected (JS.ofZ w) (JS.ofZ h)))) /\
  limitZoom v =~= v /\
  (forall e x, zoom (handleZoomChange [x] e) = x).
Proof.
  intros Hs Hv. destruct (reachable_ok s Hs) as [Hi _ He].
  split; [exact He|]. split.
  { intros img c Hin Ec. rewrite Forall_forall in Hi.
    exact (ok_zoom img (Hi img Hin) c Ec). }
  split; [exact limitZoom_between|].
  split; [intros; apply detect_between|].
  split; [apply limitZoom_in_range; exact Hv|].
  reflexivity.
Qed.

Lemma zoom_within_bounds_witness :
  JS.between 10 200 (zoom (editor savedThenUnaccepted)) /\ limitZoom (Num 150) =~= Num 150.
Proof.
  assert (R : reachable savedThenUnaccepted)
    by (apply run_reachable; repeat constructor).
  assert (B : JS.between 10 200 (Num 150)) by (cbn; lra).
  destruct (zoom_within_bounds savedThenUnaccepted (Num 150) R B)
    as (H1 & _ & _ & _ & H2 & _).
  split; assumption.
Defined.

(** ** Export eligibility *)

Lemma exportable_formula (img : ProcessedImage) :
  exportable img =
  isProcessed img && (isEdited img || isAccepted img)
  && (truthyUrl (croppedUrl img) || isAccepted img && truthyString (previewUrl img)).
Proof.
  unfold exportable, downloadItem, orUrl. cbn [d_isProcessed d_croppedUrl].
  destruct (truthyUrl (croppedUrl img)) eqn:E; [rewrite E; reflexivity|].
  destruct (isAccepted img); reflexivity.
Qed.




(** The scenario of C1: a 1000x1000 source at zoom 100 and pan (-2000, 0)
    gives a 300x400 canvas of white pixels. *)
Lemma commit_size_and_background_witness :
  let out := handleSaveCanvas nearestNeighbour scenarioImage
               (Num 100) (Num (-2000), Num 0) true in
  width out = 300%Z /\ height out = 400%Z /\
  Forall (fun p => p = white) (pixels out).
Proof.
  destruct (commit_size_and_background nearestNeighbour scenarioImage 100 (-2000) 0 true)
    as (Hw & Hh & _ & Hwhite).
  - cbn. lia.
  - cbn. lia.
  - lra.
  - lra.
  - split; [exact Hw|]. split; [exact Hh|].
    apply Hwhite. left. vm_compute. reflexivity.
Defined.

(** * Further properties of the code *)

(** ** The other bands of the estimator *)

Lemma inject_Z_pos (n : Z) : (0 < n)%Z -> 0 < inject_Z n.
Proof. intros H. change 0 with (inject_Z 0). rewrite <- Zlt_Qlt. exact H. Qed.

Lemma ratio_le_bounds (W H : Q) :
  0 < H -> (1.5 <= W / H <-> 1.5 * H <= W) /\ (W / H <= 0.6 <-> W <= 0.6 * H).
Proof.
  intros HH.
  assert (E : W == (W / H) * H) by (field; lra).
  set (r := W / H) in *. clearbody r.
  split; split; intros; nra.
Qed.

(** X1.  For a positive source whose aspect ratio is at least 1.5 the candidate
    rectangle has width [min (0.25 W) (0.6 H)], height 1.2 times that width,
    starts at [0.3 W] from the left and is vertically centred; keeping it
    inside the image changes nothing. *)
Theorem landscape_band_candidate (W H : Z) :
  (0 < W)%Z -> (0 < H)%Z -> 1.5 <= inject_Z W / inject_Z H ->
  let w := Qmin (inject_Z W * 0.25) (inject_Z H * 0.6) in
  let r := mkFaceRect (Num (inject_Z W * 0.3)) (Num ((inject_Z H - w * 1.2) / 2))
             (Num w) (Num (w * 1.2)) in
  rect_eq (faceEstimate (JS.ofZ W) (JS.ofZ H)) r /\
  rect_eq (faceClamp (JS.ofZ W) (JS.ofZ H) (faceEstimate (JS.ofZ W) (JS.ofZ H))) r.
Proof.
  intros HW HH Hlo w r.
  pose proof (inject_Z_pos W HW) as HWq. pose proof (inject_Z_pos H HH) as HHq.
  assert (E : faceEstimate (JS.ofZ W) (JS.ofZ H) = r).
  { unfold faceEstimate, JS.ofZ.
    rewrite JSFacts.div_Num by lra.
    unfold JS.gt, JS.ge.
    replace (JS.lt (Num (inject_Z W / inject_Z H)) (Num 1.5)) with false.
    2:{ symmetry. apply not_true_is_false. intros C. apply JSFacts.lt_Num in C.
        apply (Qlt_not_le _ _ C). exact Hlo. }
    replace (JS.le (Num 1.5) (Num (inject_Z W / inject_Z H))) with true
      by (symmetry; apply JSFacts.le_Num; exact Hlo).
    rewrite andb_false_r.
    cbn [JS.mul JS.min JS.sub JS.add JS.neg]. jdiv. reflexivity. }
  rewrite E. split.
  - repeat split; apply JSFacts.eq_reflexive.
  - destruct (ratio_le_bounds (inject_Z W) (inject_Z H) HHq) as [[B1 _] _].
    specialize (B1 Hlo).
    subst r. unfold faceClamp, rect_eq, JS.ofZ.
    cbn [faceX faceY faceWidth faceHeight JS.mul JS.min JS.max JS.sub JS.add JS.neg JS.eq].
    subst w. set (a := inject_Z W) in *. set (b := inject_Z H) in *. clearbody a b.
    clear E Hlo. repeat split; minmax_lra.
Qed.

Lemma landscape_band_candidate_witness :
  rect_eq (faceEstimate (JS.ofZ 1600) (JS.ofZ 900))
    (mkFaceRect (Num 480) (Num 210) (Num 400) (Num 480)).
Proof.
  destruct (landscape_band_candidate 1600 900) as [E _];
    [lia | lia | vm_compute; discriminate |].
  destruct E as (E1 & E2 & E3 & E4).
  repeat split; (eapply JSFacts.eq_transitive; [eassumption | vm_compute; reflexivity]).
Defined.

(** X2.  For a positive source whose aspect ratio is at most 0.6 the candidate
    rectangle has width [min (0.6 W) (0.45 H)], height 1.33 times that
    width, is horizontally centred and starts at [0.1 H] from the top;
    keeping it inside the image changes nothing. *)
Theorem tall_band_candidate (W H : Z) :
  (0 < W)%Z -> (0 < H)%Z -> inject_Z W / inject_Z H <= 0.6 ->
  let w := Qmin (inject_Z W * 0.6) (inject_Z H * 0.45) in
  let r := mkFaceRect (Num ((inject_Z W - w) / 2)) (Num (inject_Z H * 0.1))
             (Num w) (Num (w * 1.33)) in
  rect_eq (faceEstimate (JS.ofZ W) (JS.ofZ H)) r /\
  rect_eq (faceClamp (JS.ofZ W) (JS.ofZ H) (faceEstimate (JS.ofZ W) (JS.ofZ H))) r.
Proof.
  intros HW HH Hhi w r.
  pose proof (inject_Z_pos W HW) as HWq. pose proof (inject_Z_pos H HH) as HHq.
  assert (E : faceEstimate (JS.ofZ W) (JS.ofZ H) = r).
  { unfold faceEstimate, JS.ofZ.
    rewrite JSFacts.div_Num by lra.
    unfold JS.gt, JS.ge.
    replace (JS.lt (Num 0.6) (Num (inject_Z W / inject_Z H))) with false.
    2:{ symmetry. apply not_true_is_false. intros C. apply JSFacts.lt_Num in C.
        apply (Qlt_not_le _ _ C). exact Hhi. }
    replace (JS.le (Num 1.5) (Num (inject_Z W / inject_Z H))) with false.
    2:{ symmetry. apply not_true_is_false. intros C. apply JSFacts.le_Num in C.
        assert (inject_Z W / inject_Z H < 1.5) by (eapply Qle_lt_trans; [exact Hhi | reflexivity]).
        apply (Qlt_not_le _ _ H0). exact C. }
    cbn [andb JS.mul JS.min JS.sub JS.add JS.neg]. jdiv. reflexivity. }
  rewrite E. split.
  - repeat split; apply JSFacts.eq_reflexive.
  - destruct (ratio_le_bounds (inject_Z W) (inject_Z H) HHq) as [_ [B2 _]].
    specialize (B2 Hhi).
    subst r. unfold faceClamp, rect_eq, JS.ofZ.
    cbn [faceX faceY faceWidth faceHeight JS.mul JS.min JS.max JS.sub JS.add JS.neg JS.eq].
    subst w. set (a := inject_Z W) in *. set (b := inject_Z H) in *. clearbody a b.
    clear E Hhi. repeat split; minmax_lra.
Qed.

Lemma tall_band_candidate_witness :
  rect_eq (faceEstimate (JS.ofZ 600) (JS.ofZ 1000))
    (mkFaceRect (Num 120) (Num 100) (Num 360) (Num (2394 # 5))).
Proof.
  destruct (tall_band_candidate 600 1000) as [E _];
    [lia | lia | vm_compute; discriminate |].
  destruct E as (E1 & E2 & E3 & E4).
  repeat split; (eapply JSFacts.eq_transitive; [eassumption | vm_compute; reflexivity]).
Defined.

(** X3.  The clamp of lines 123-127 puts any rectangle of non-negative size
    inside an image of non-negative size, never enlarging it. *)
Theorem faceClamp_inside_image (W H x y w h : Q) :
  0 <= W -> 0 <= H -> 0 <= w -> 0 <= h ->
  exists x' y' w' h',
    faceClamp (Num W) (Num H) (mkFaceRect (Num x) (Num y) (Num w) (Num h))
      = mkFaceRect (Num x') (Num y') (Num w') (Num h') /\
    0 <= x' /\ 0 <= w' /\ x' + w' <= W /\
    0 <= y' /\ 0 <= h' /\ y' + h' <= H /\
    w' <= w /\ h' <= h.
Proof.
  intros HW HH Hw Hh. unfold faceClamp.
  cbn [faceX faceY faceWidth faceHeight JS.mul JS.min JS.max JS.sub JS.add JS.neg].
  do 4 eexists. split; [reflexivity|].
  repeat split; minmax_lra.
Qed.

Lemma faceClamp_inside_image_witness :
  exists x' y' w' h',
    faceClamp (Num 100) (Num 100) (mkFaceRect (Num 90) (Num (-5)) (Num 30) (Num 200))
      = mkFaceRect (Num x') (Num y') (Num w') (Num h') /\
    0 <= x' /\ 0 <= w' /\ x' + w' <= 100.
Proof.
  destruct (faceClamp_inside_image 100 100 90 (-5) 30 200)
    as (x' & y' & w' & h' & E & A & B & C & _); try lra.
  exists x', y', w', h'. auto.
Defined.

(** ** The zoom of the estimator *)

(** For a positive source the clamped candidate is a proper rectangle that
    is wider, relative to its height, than the 300x400 frame. *)
Lemma estimate_positive (W H : Q) :
  0 < W -> 0 < H ->
  exists x y w h,
    faceClamp (Num W) (Num H) (faceEstimate (Num W) (Num H))
      = mkFaceRect (Num x) (Num y) (Num w) (Num h) /\
    0 < w /\ 0 < h /\ 0.75 * h < w.
Proof.
  intros HW HH. unfold faceEstimate.
  destruct (_ && _); [| destruct (JS.ge _ _)];
    unfold faceClamp;
    cbn [faceX faceY faceWidth faceHeight JS.mul JS.min JS.max JS.sub JS.add JS.neg];
    jdiv;
    cbn [faceX faceY faceWidth faceHeight JS.mul JS.min JS.max JS.sub JS.add JS.neg];
    do 4 eexists; (split; [reflexivity|]);
    repeat split; minmax_lra.
Qed.

(** X4.  For every positive source the estimator fits the candidate rectangle by
    its height, never by its width: the zoom is [400 / faceHeight * 100]
    limited to [10, 200], and when no limit applies the rectangle is shown
    exactly 400 pixels high. *)
Theorem estimator_fits_height (W H : Z) :
  (0 < W)%Z -> (0 < H)%Z ->
  let r := faceClamp (JS.ofZ W) (JS.ofZ H) (faceEstimate (JS.ofZ W) (JS.ofZ H)) in
  let f := detectFaceAndCrop false (JS.ofZ W) (JS.ofZ H) in
  exists h,
    faceHeight r = Num h /\ 0 < h /\
    fr_zoom f = limitZoom (Num (400 / h * 100)) /\
    (10 <= 400 / h * 100 -> 400 / h * 100 <= 200 ->
     JS.mul (faceHeight r) (JS.div (fr_zoom f) (Num 100)) =~= Num 400).
Proof.
  intros HW HH r f. subst r f. unfold detectFaceAndCrop, detectTry, JS.ofZ.
  cbn [fr_zoom].
  destruct (estimate_positive (inject_Z W) (inject_Z H)
              (inject_Z_pos W HW) (inject_Z_pos H HH))
    as (x & y & w & h & -> & Hw & Hh & Hr).
  exists h. cbn [faceHeight]. split; [reflexivity|]. split; [exact Hh|].
  assert (Ez : faceZoom (mkFaceRect (Num x) (Num y) (Num w) (Num h))
               = limitZoom (Num (400 / h * 100))).
  { unfold faceZoom. cbn [faceWidth faceHeight].
    rewrite (JSFacts.div_Num w h), (JSFacts.div_Num 300 400), (JSFacts.div_Num 400 h) by lra.
    unfold JS.gt.
    replace (JS.lt (Num (300 / 400)) (Num (w / h))) with true.
    - reflexivity.
    - symmetry. apply JSFacts.lt_Num.
      assert (E : w / h * h == w) by (field; lra).
      set (q := w / h) in *. clearbody q.
      setoid_replace (300 / 400) with 0.75 by reflexivity.
      destruct (Qlt_le_dec 0.75 q) as [L | L]; [exact L | nra]. }
  rewrite Ez. split; [reflexivity|].
  intros L U. unfold limitZoom. cbn [JS.min JS.max].
  rewrite JSFacts.div_Num by lra. cbn [JS.mul JS.eq].
  assert (E : 400 / h * h == 400) by (field; lra).
  set (q := 400 / h) in *. clearbody q.
  assert (M : Qmax 10 (Qmin 200 (q * 100)) == q * 100) by minmax_lra.
  rewrite M. field_simplify. lra.
Qed.

Lemma estimator_fits_height_witness :
  exists h,
    faceHeight (faceClamp (JS.ofZ 800) (JS.ofZ 1200)
                  (faceEstimate (JS.ofZ 800) (JS.ofZ 1200))) = Num h /\
    fr_zoom (detectFaceAndCrop false (JS.ofZ 800) (JS.ofZ 1200))
    = limitZoom (Num (400 / h * 100)).
Proof.
  destruct (estimator_fits_height 800 1200) as (h & E & _ & Z & _); [lia | lia |].
  exists h. split; [exact E | exact Z].
Defined.

(** ** The initial zoom of small images *)

(** X5.  For a positive source [getOptimalZoom] is within [100, 200]: it is 100
    exactly when the image is at least 300 wide and 400 high, and whenever
    it stays under the cap of 200 the scaled image covers the 300x400
    frame. *)
Theorem getOptimalZoom_covers_frame (W H : Z) :
  (0 < W)%Z -> (0 < H)%Z ->
  exists z,
    getOptimalZoom (Some (JS.ofZ W, JS.ofZ H)) = Num z /\
    100 <= z /\ z <= 200 /\
    ((300 <= W)%Z /\ (400 <= H)%Z <-> z == 100) /\
    (z < 200 ->
     300 <= inject_Z W * (z / 100) /\ 400 <= inject_Z H * (z / 100)).
Proof.
  intros HW HH.
  pose proof (inject_Z_pos W HW) as HWq. pose proof (inject_Z_pos H HH) as HHq.
  assert (B : (300 <= W)%Z /\ (400 <= H)%Z <->
              300 <= inject_Z W /\ 400 <= inject_Z H).
  { change 300 with (inject_Z 300). change 400 with (inject_Z 400).
    rewrite <- !Zle_Qle. reflexivity. }
  unfold getOptimalZoom, JS.ofZ.
  rewrite !JSFacts.div_Num by lra. cbn [JS.max].
  assert (Ex : 300 / inject_Z W * inject_Z W == 300) by (field; lra).
  assert (Ey : 400 / inject_Z H * inject_Z H == 400) by (field; lra).
  set (a := inject_Z W) in *. set (b := inject_Z H) in *.
  set (sx := 300 / a) in *. set (sy := 400 / b) in *.
  clearbody a b sx sy.
  pose proof (Q.max_spec sx sy) as M. set (m := Qmax sx sy) in *. clearbody m.
  destruct (JS.gt (Num m) (Num 1)) eqn:G.
  - apply JSFacts.lt_Num in G. cbn [JS.mul JS.min].
    eexists. split; [reflexivity|].
    pose proof (Q.min_spec (m * 100) 200) as N.
    set (z := Qmin (m * 100) 200) in *. clearbody z.
    assert (Ez : z / 100 * 100 == z) by (field; lra).
    set (zf := z / 100) in *. clearbody zf.
    split; [split_cases; lra|]. split; [split_cases; lra|].
    split; [rewrite B; split; intros ?; split_cases; nra|].
    intros ?. split_cases; split; nra.
  - assert (G' : m <= 1).
    { apply Qnot_lt_le. intros C. apply JSFacts.lt_Num in C.
      unfold JS.gt in G. congruence. }
    exists 100. split; [reflexivity|].
    split; [lra|]. split; [lra|].
    split; [rewrite B; split; intros ?; split_cases; try reflexivity; split; nra|].
    intros _. setoid_replace (100 / 100) with 1 by reflexivity.
    split_cases; split; nra.
Qed.

Lemma getOptimalZoom_covers_frame_witness :
  exists z, getOptimalZoom (Some (JS.ofZ 200, JS.ofZ 300)) = Num z /\ 100 <= z /\ z <= 200.
Proof.
  destruct (getOptimalZoom_covers_frame 200 300) as (z & E & L & U & _); [lia | lia |].
  exists z. auto.
Defined.

(** ** Dragging *)

(** X6.  A drag moves the image by the displacement of the pointer: after a
    mouse-down at [(a, b)] and any two moves, the position is the old one
    plus the last pointer position minus [(a, b)]; the zoom is untouched,
    and after the mouse-up further moves change nothing. *)
Theorem drag_translates_position (e : EditorState) (px py a b c1 d1 c2 d2 : Q) :
  position e = (Num px, Num py) ->
  let down := handleMouseDown (Num a) (Num b) e in
  let moved := handleMouseMove (Num c2) (Num d2) (handleMouseMove (Num c1) (Num d1) down) in
  fst (position moved) =~= Num (px + (c2 - a)) /\
  snd (position moved) =~= Num (py + (d2 - b)) /\
  zoom moved = zoom e /\
  isDragging moved = true /\
  handleMouseMove (Num c1) (Num d1) (handleMouseUp moved) = handleMouseUp moved /\
  position (handleMouseUp moved) = position moved.
Proof.
  intros E. cbn zeta. unfold handleMouseMove, handleMouseDown, handleMouseUp, setPosition.
  cbn [isDragging negb position dragStart zoom fst snd]. rewrite E.
  cbn [fst snd JS.sub JS.add JS.neg JS.eq].
  repeat split; ring.
Qed.

Lemma drag_translates_position_witness :
  fst (position (handleMouseMove (Num 40) (Num 50)
                   (handleMouseMove (Num 20) (Num 20)
                      (handleMouseDown (Num 10) (Num 10) initialEditor))))
  =~= Num (0 + (40 - 10)).
Proof.
  destruct (drag_translates_position initialEditor 0 0 10 10 20 20 40 50 eq_refl)
    as (A & _).
  exact A.
Defined.

(** A move of the pointer outside a drag leaves the editor as it is. *)
Lemma move_without_drag (e : EditorState) (c d : num) :
  isDragging e = false -> handleMouseMove c d e = e.
Proof. intros E. unfold handleMouseMove. rewrite E. reflexivity. Qed.

(** ** Where [handleSave] draws *)



(** ** Greyscale and colour output *)

(** X8.  The greyscale output of a save is the colour output of the same save
    with every pixel replaced by its grey value: same size, every pixel
    grey, alpha channel untouched. *)
Theorem greyscale_output_of_colour_output
    (render : Image -> Q -> Q -> Pixel -> Pixel)
    (img : Image) (zoom : num) (position : num * num) :
  let grey := handleSaveCanvas render img zoom position true in
  let colour := handleSaveCanvas render img zoom position false in
  pixels grey = map greyPixelSpec (pixels colour) /\
  width grey = width colour /\ height grey = height colour /\
  length (pixels grey) = length (pixels colour) /\
  Forall isGrey (pixels grey) /\
  map alphaOf (pixels grey) = map alphaOf (pixels colour).
Proof.
  cbn zeta. unfold handleSaveCanvas. cbn iota.
  set (c := drawImage _ _ _ _ _ _ _ _ _ _ _).
  assert (E : pixels (putImageData c (greyscale (getImageData c)))
              = map greyPixelSpec (pixels c)) by apply greyscale_pixels.
  rewrite E. split; [reflexivity|]. split; [reflexivity|]. split; [reflexivity|].
  split; [apply length_map|]. split.
  - apply Forall_map. apply Forall_forall. intros [[[r g] b] a] _.
    cbn. auto.
  - rewrite map_map. apply map_ext. intros [[[r g] b] a]. reflexivity.
Qed.

(** ** Saving and coming back to a record *)

Lemma find_handleImageEdit images sel url c :
  find (fun img => String.eqb (id img) sel) (handleImageEdit images sel url c)
  = option_map
      (fun img => mkProcessedImage (id img) (originalFile img) (previewUrl img)
                    (Some url) (isProcessed img) true true c)
      (find (fun img => String.eqb (id img) sel) images).
Proof.
  unfold handleImageEdit.
  induction images as [| img l IH]; [reflexivity|].
  cbn [map find]. destruct (String.eqb (id img) sel) eqn:E.
  - cbn [id]. rewrite E. reflexivity.
  - rewrite E. exact IH.
Qed.

Lemma between_truthy (v : num) : JS.between 10 200 v -> JS.truthy v = true.
Proof.
  destruct v as [q| | |]; cbn; try tauto. intros [L _].
  destruct (Qeq_bool q 0) eqn:E; [|reflexivity].
  apply Qeq_bool_iff in E. lra.
Qed.

(** X9.  Saving the crop of the selected record and then coming back to it
    restores the view that was saved: zoom, pan, greyscale switch and crop
    rectangle are those of the save, and the face-detected mark is
    cleared. *)
Theorem save_then_restore_keeps_view
    (s : AppState) (sel url : string) (img : ProcessedImage)
    (natural : option (Z * Z)) :
  reachable s ->
  selectedImageId s = Some sel -> truthyString sel = true ->
  findSelected (images s) (Some sel) = Some img ->
  let s' := step (step s (SaveCrop url)) (SelectionEffect natural) in
  zoom (editor s') = zoom (editor s) /\
  position (editor s') = position (editor s) /\
  isGreyscale (editor s') = isGreyscale (editor s) /\
  cropRect (editor s') = cropRect (editor s) /\
  faceDetected (editor s') = false.
Proof.
  intros Hs Es Et Ef. destruct (reachable_ok s Hs) as [_ _ He].
  cbn zeta. cbn [step]. rewrite Es, Ef, Et.
  unfold withEditor, withImages. cbn [images selectedImageId editor].
  rewrite Es. cbn [findSelected] in *. unfold onImageSave.
  rewrite find_handleImageEdit, Ef. cbn [option_map selectionEffect crop].
  unfold savedCrop. destruct (cropRect (editor s)) as [[[x y] w] h] eqn:Ec.
  cbn [c_zoom c_position c_isGreyscale c_x c_y c_width c_height
       zoom position isGreyscale cropRect faceDetected].
  rewrite (between_truthy _ He). repeat split. 
Qed.

Lemma save_then_restore_keeps_view_witness :
  let s := run [Upload [(sampleId, sampleFile, samplePreviewUrl)];
                ProcessingDone 0; ZoomSlider (Num 150); MouseDown 0 0; MouseMove 5 (-7)] in
  zoom (editor (step (step s (SaveCrop sampleCropUrl)) (SelectionEffect None)))
  = Num 150.
Proof.
  intros s.
  assert (R : reachable s).
  { apply run_reachable. repeat constructor; cbn; lra. }
  destruct (save_then_restore_keeps_view s sampleId sampleCropUrl
              (hd sampleRecord (images s)) None R eq_refl eq_refl eq_refl) as (Z & _).
  exact Z.
Defined.

(** ** Deleting, accepting and saving records *)

Lemma firstId_filter_neq images imageId :
  firstId (filter (fun img => negb (String.eqb (id img) imageId)) images)
  <> Some imageId.
Proof.
  destruct (filter _ images) as [| img l] eqn:E; cbn; [discriminate|].
  assert (In img (filter (fun img => negb (String.eqb (id img) imageId)) images))
    by (rewrite E; left; reflexivity).
  apply filter_In in H. destruct H as [_ H].
  apply negb_true_iff, String.eqb_neq in H.
  destruct (truthyString (id img)); [|discriminate].
  intros C. injection C as C. contradiction.
Qed.

Lemma filter_singleton_other (img : ProcessedImage) (imageId : string) :
  filter (fun x => negb (String.eqb (id x) imageId)) [img]
  = if String.eqb (id img) imageId then [] else [img].
Proof. cbn [filter]. destruct (String.eqb (id img) imageId); reflexivity. Qed.

(** X10.  [handleDeleteImage] removes every record of the given id and no other,
    keeping the order and the copies of the others: the result for a list
    is the result for each record in turn, nothing for a record of the id
    and the record itself for another.  Afterwards the selection never
    names the deleted id: it is unchanged when another record was selected,
    and else the first remaining record.  Deleting an id that no record has
    changes nothing. *)
Theorem delete_removes_record
    (images : list ProcessedImage) (sel : option string) (imageId : string) :
  let l := fst (handleDeleteImage images sel imageId) in
  let sel' := snd (handleDeleteImage images sel imageId) in
  (forall img, In img l <-> In img images /\ id img <> imageId) /\
  (length l <= length images)%nat /\
  ((forall img, In img images -> id img <> imageId) -> l = images) /\
  sel' <> Some imageId /\
  (sel <> Some imageId -> sel' = sel) /\
  (sel = Some imageId -> sel' = firstId l) /\
  (forall before after, images = before ++ after ->
     l = fst (handleDeleteImage before sel imageId)
         ++ fst (handleDeleteImage after sel imageId)) /\
  (forall img,
     fst (handleDeleteImage [img] sel imageId)
     = if String.eqb (id img) imageId then [] else [img]) /\
  l = flat_map (fun img => if String.eqb (id img) imageId then [] else [img]) images.
Proof.
  cbn zeta. cbn [handleDeleteImage fst snd]. split.
  { intros img. rewrite filter_In, negb_true_iff, String.eqb_neq. reflexivity. }
  split; [apply filter_length_le|]. split.
  { intros H. apply forallb_filter_id. apply forallb_forall. intros img Hin.
    apply negb_true_iff, String.eqb_neq. auto. }
  assert (S : isSelected sel imageId = true <-> sel = Some imageId).
  { destruct sel as [x|]; cbn; [|split; discriminate].
    rewrite String.eqb_eq. split; [intros ->; reflexivity | intros E; injection E; auto]. }
  assert (T : (forall before after, images = before ++ after ->
                 filter (fun img => negb (String.eqb (id img) imageId)) images
                 = filter (fun img => negb (String.eqb (id img) imageId)) before
                   ++ filter (fun img => negb (String.eqb (id img) imageId)) after) /\
              (forall img,
                 filter (fun x => negb (String.eqb (id x) imageId)) [img]
                 = if String.eqb (id img) imageId then [] else [img]) /\
              filter (fun img => negb (String.eqb (id img) imageId)) images
              = flat_map (fun img => if String.eqb (id img) imageId then [] else [img])
                  images).
  { split; [intros before after ->; apply filter_app|].
    split; [intros img; apply filter_singleton_other|].
    induction images as [| x l IH]; [reflexivity|].
    cbn [filter flat_map]. rewrite IH.
    destruct (String.eqb (id x) imageId); reflexivity. }
  destruct (isSelected sel imageId) eqn:E.
  - assert (Es : sel = Some imageId) by (apply S; reflexivity).
    split; [apply firstId_filter_neq|]. split; [intros C; contradiction|].
    split; [reflexivity | exact T].
  - assert (Es : sel <> Some imageId) by (intros C; apply S in C; discriminate).
    split; [exact Es|]. split; [reflexivity|].
    split; [intros C; contradiction | exact T].
Qed.

Lemma handleAcceptImage_idempotent images sel imageId accepted :
  handleAcceptImage (handleAcceptImage images sel imageId accepted) sel imageId accepted
  = handleAcceptImage images sel imageId accepted.
Proof.
  unfold handleAcceptImage. rewrite map_map. apply map_ext. intros img.
  destruct (String.eqb (id img) imageId) eqn:E; [|rewrite E; reflexivity].
  destruct (accepted && negb (truthyUrl (croppedUrl img)) && isSelected sel imageId) eqn:C;
    cbn [id croppedUrl isEdited]; rewrite E, ?C; try reflexivity.
  destruct accepted; reflexivity.
Qed.

(** X11.  Accepting is idempotent, and withdrawing an acceptance clears the
    accepted flag only: the record stays marked as edited. *)
Theorem accept_then_withdraw
    (images : list ProcessedImage) (sel : option string) (imageId : string)
    (accepted : bool) (i : nat) (img : ProcessedImage) :
  nth_error images i = Some img -> id img = imageId ->
  handleAcceptImage (handleAcceptImage images sel imageId accepted) sel imageId accepted
  = handleAcceptImage images sel imageId accepted /\
  exists img',
    nth_error (handleAcceptImage (handleAcceptImage images sel imageId true)
                 sel imageId false) i = Some img' /\
    isAccepted img' = false /\ isEdited img' = true /\
    id img' = id img /\ croppedUrl img' = croppedUrl img /\ crop img' = crop img.
Proof.
  intros Hi E. split; [apply handleAcceptImage_idempotent|].
  unfold handleAcceptImage. rewrite map_map, nth_error_map, Hi. cbn [option_map].
  apply String.eqb_eq in E. rewrite E.
  destruct (true && negb (truthyUrl (croppedUrl img)) && isSelected sel imageId);
    cbn [id]; rewrite E; cbn; eexists; (split; [reflexivity|]); cbn; auto.
Qed.

Lemma accept_then_withdraw_witness :
  exists img',
    nth_error (handleAcceptImage (handleAcceptImage [sampleRecord] None sampleId true)
                 None sampleId false) 0 = Some img' /\
    isAccepted img' = false /\ isEdited img' = true.
Proof.
  destruct (accept_then_withdraw [sampleRecord] None sampleId true 0 sampleRecord
              eq_refl eq_refl) as (_ & img' & E & A & B & _).
  exists img'. auto.
Defined.

(** X12.  Saving and accepting never add, drop, reorder or rename records: the
    identifiers, files, preview URLs and processed flags of the list are
    those of before. *)
Theorem edit_and_accept_keep_identity
    (images : list ProcessedImage) (sel : option string) (imageId url : string)
    (c : option CropData) (accepted : bool) :
  let edited := handleImageEdit images imageId url c in
  let acc := handleAcceptImage images sel imageId accepted in
  map id edited = map id images /\
  map originalFile edited = map originalFile images /\
  map previewUrl edited = map previewUrl images /\
  map isProcessed edited = map isProcessed images /\
  map id acc = map id images /\
  map originalFile acc = map originalFile images /\
  map previewUrl acc = map previewUrl images /\
  map isProcessed acc = map isProcessed images.
Proof.
  cbn zeta. unfold handleImageEdit, handleAcceptImage. rewrite !map_map.
  repeat split; apply map_ext; intros img;
    destruct (String.eqb (id img) imageId); try reflexivity;
    destruct (_ && _); reflexivity.
Qed.

(** ** Uploads that overlap with other events *)

Lemma step_pending_head (s : AppState) (ev : Event) (p : PendingUpload)
    (rest : list PendingUpload) :
  notProcessingDone ev -> pending s = p :: rest ->
  nth_error (pending (step s ev)) 0 = Some p.
Proof.
  intros Hev Hp. destruct ev; cbn [step]; try contradiction;
    try (unfold withEditor, withImages; cbn [pending]; rewrite Hp; reflexivity).
  - destruct files; cbn [pending]; rewrite Hp; reflexivity.
  - destruct (selectedImageId s); [|rewrite Hp; reflexivity].
    destruct (findSelected (images s) _); [|rewrite Hp; reflexivity].
    destruct (truthyString _); [unfold withImages; cbn [pending]|];
      rewrite Hp; reflexivity.
Qed.

Lemma steps_pending_head (evs : list Event) :
  forall (s : AppState) (p : PendingUpload) (rest : list PendingUpload),
    Forall notProcessingDone evs -> pending s = p :: rest ->
    nth_error (pending (fold_left step evs s)) 0 = Some p.
Proof.
  induction evs as [| ev evs IH]; intros s p rest Hev Hp; cbn [fold_left].
  - rewrite Hp. reflexivity.
  - inversion Hev; subst.
    pose proof (step_pending_head s ev p rest H1 Hp) as E.
    destruct (pending (step s ev)) as [| q rest'] eqn:Eq; [discriminate|].
    injection E as ->. eapply IH; eassumption.
Qed.

(** X13.  When the processing of an upload finishes, the records become those
    that existed when the upload started plus the new ones: whatever the
    events in between did to the records (a save, an acceptance, a
    deletion, a further upload) is discarded. *)
Theorem processing_discards_changes
    (s : AppState) (files : list (string * File * string)) (evs : list Event) :
  files <> [] -> pending s = [] -> Forall notProcessingDone evs ->
  let s' := step (fold_left step evs (step s (Upload files))) (ProcessingDone 0) in
  images s' = images s ++ map markProcessed (map newImage files) /\
  selectedImageId s' = firstId (map markProcessed (map newImage files)) /\
  activeTab s' = EditTab.
Proof.
  intros Hf Hp Hev. cbn zeta.
  destruct files as [| f files]; [contradiction|].
  set (s1 := step s (Upload (f :: files))).
  assert (P1 : pending s1 = [mkPendingUpload (images s) (map newImage (f :: files))]).
  { subst s1. cbn [step pending]. rewrite Hp. reflexivity. }
  pose proof (steps_pending_head evs s1 _ _ Hev P1) as P2.
  cbn [step]. rewrite P2. cbn [images selectedImageId activeTab capturedImages newImages].
  auto.
Qed.

Lemma processing_discards_changes_witness :
  let s := run [Upload [(sampleId, sampleFile, samplePreviewUrl)]; ProcessingDone 0] in
  let other := ("img-2"%string, mkFile "second.png"%string, "blob:preview-2"%string) in
  images (step (fold_left step [SaveCrop sampleCropUrl; AcceptImage sampleId false]
                  (step s (Upload [other])))
            (ProcessingDone 0))
  = images s ++ map markProcessed (map newImage [other]).
Proof.
  intros s other.
  destruct (processing_discards_changes s [other]
              [SaveCrop sampleCropUrl; AcceptImage sampleId false])
    as (E & _); [discriminate | reflexivity | repeat constructor |].
  exact E.
Defined.

(** X14.  Two uploads that overlap: when both have finished, the records of the
    first are gone, the list being that of before with the records of the
    second. *)
Theorem overlapping_uploads_drop_first
    (s : AppState) (files1 files2 : list (string * File * string)) :
  files1 <> [] -> files2 <> [] -> pending s = [] ->
  let s' := step (step (step (step s (Upload files1)) (Upload files2))
                    (ProcessingDone 0)) (ProcessingDone 0) in
  images s' = images s ++ map markProcessed (map newImage files2) /\
  pending s' = [].
Proof.
  intros H1 H2 Hp. cbn zeta.
  destruct files1 as [| f1 l1]; [contradiction|].
  destruct files2 as [| f2 l2]; [contradiction|].
  cbn [step pending]. rewrite Hp.
  cbn [app nth_error removeNth pending images capturedImages newImages].
  auto.
Qed.

Lemma overlapping_uploads_drop_first_witness :
  let first := (sampleId, sampleFile, samplePreviewUrl) in
  let other := ("img-2"%string, mkFile "second.png"%string, "blob:preview-2"%string) in
  map id (images (run [Upload [first]; Upload [other]; ProcessingDone 0; ProcessingDone 0]))
  = ["img-2"%string].
Proof.
  intros first other.
  destruct (overlapping_uploads_drop_first initialState [first] [other])
    as (E & _); [discriminate | discriminate | reflexivity |].
  unfold run. cbn [fold_left]. rewrite E. reflexivity.
Defined.

(** ** What a reachable session shows *)

(** X15.  In every reachable session the Edit tab is enabled exactly when there
    is a record, as the Download tab is; and a record that is marked edited
    shows its image as the final result, one that is not shows "No crop
    saved yet": the prompt to click Save Crop is never shown. *)
Theorem reachable_tabs_and_preview (s : AppState) (img : ProcessedImage) :
  reachable s -> In img (images s) ->
  editTabDisabled (images s) = downloadTabDisabled (images s) /\
  editTabDisabled (images s) = false /\
  (isEdited img = true ->
   exists u, croppedUrl img = Some u /\
             finalResultView img = ShowImage u (greyscaleShown (crop img))) /\
  (isEdited img = false -> finalResultView img = ShowMessage noCropMessage) /\
  finalResultView img <> ShowMessage clickSaveMessage.
Proof.
  intros Hs Hin. destruct (reachable_ok s Hs) as [Hi _ _].
  assert (P : forallb isProcessed (images s) = true).
  { apply forallb_forall. intros x Hx. rewrite Forall_forall in Hi.
    apply (ok_processed x (Hi x Hx)). }
  assert (N : images s <> []) by (intros C; rewrite C in Hin; contradiction).
  unfold editTabDisabled, downloadTabDisabled, allImagesProcessed. rewrite P.
  destruct (images s) as [| x l] eqn:El; [contradiction|].
  split; [reflexivity|]. split; [reflexivity|].
  rewrite Forall_forall in Hi. destruct (Hi img Hin) as [_ C _ A _ _].
  unfold finalResultView. destruct (croppedUrl img) as [u|]; [|discriminate].
  cbn in C. rewrite C. cbn [andb].
  destruct (isEdited img) eqn:E.
  - split; [intros _; eauto|]. split; [discriminate | discriminate].
  - assert (Ea : isAccepted img = false).
    { destruct (isAccepted img); [|reflexivity]. symmetry. apply A. reflexivity. }
    rewrite Ea. split; [discriminate|]. split; [reflexivity | discriminate].
Qed.

Lemma reachable_tabs_and_preview_witness :
  finalResultView (hd sampleRecord (images acceptedWithoutSave))
  <> ShowMessage clickSaveMessage.
Proof.
  assert (R : reachable acceptedWithoutSave)
    by (apply run_reachable; repeat constructor).
  apply (reachable_tabs_and_preview acceptedWithoutSave _ R). left. reflexivity.
Defined.

(** ** File names of the downloads *)

Local Open Scope string_scope.

Lemma allNotSlashDot_app (a b : string) :
  allNotSlashDot (a ++ b) = allNotSlashDot a && allNotSlashDot b.
Proof.
  induction a as [| c a IH]; [reflexivity|].
  cbn [append allNotSlashDot]. rewrite IH. apply andb_assoc.
Qed.

Lemma allNotSlashDot_mid (base ext : string) :
  allNotSlashDot (base ++ String "."%char ext) = false.
Proof.
  rewrite allNotSlashDot_app. cbn [allNotSlashDot]. apply andb_false_r.
Qed.

Lemma stripExtension_last (base ext : string) :
  truthyString ext = true -> allNotSlashDot ext = true ->
  stripExtension (base ++ "." ++ ext) = base.
Proof.
  intros Ht Hn. change ("." ++ ext) with (String "."%char ext).
  induction base as [| c base IH].
  - cbn [append stripExtension]. rewrite Ht, Hn. reflexivity.
  - cbn [append stripExtension].
    rewrite allNotSlashDot_mid, andb_false_r, IH. reflexivity.
Qed.

Lemma stripExtension_noDot (s : string) : noDot s = true -> stripExtension s = s.
Proof.
  induction s as [| c s IH]; [reflexivity|].
  cbn [noDot stripExtension]. intros H. apply andb_true_iff in H. destruct H as [Hc Hs].
  apply negb_true_iff in Hc. rewrite Hc. cbn [andb]. rewrite IH by exact Hs. reflexivity.
Qed.

(** X16.  The name of a download is the prefix, the original name without its
    last extension, and ".png": the extension of [base.ext] is dropped
    whatever [base] is, a name without a dot is kept whole, and so two
    files that differ in their extension only are downloaded under one
    name. *)
Theorem downloadName_drops_extension (prefix base ext ext' : string) :
  truthyString ext = true -> allNotSlashDot ext = true ->
  truthyString ext' = true -> allNotSlashDot ext' = true ->
  downloadName prefix (base ++ "." ++ ext) = prefix ++ base ++ ".png" /\
  downloadName prefix (base ++ "." ++ ext) = downloadName prefix (base ++ "." ++ ext') /\
  (noDot base = true -> downloadName prefix base = prefix ++ base ++ ".png").
Proof.
  intros H1 H2 H3 H4. unfold downloadName.
  rewrite !stripExtension_last by assumption.
  split; [reflexivity|]. split; [reflexivity|].
  intros H. rewrite stripExtension_noDot by exact H. reflexivity.
Qed.

Lemma downloadName_drops_extension_witness :
  downloadName "portrait_" "anna.smith.jpg" = "portrait_anna.smith.png" /\
  downloadName "portrait_" "anna.smith.jpg" = downloadName "portrait_" "anna.smith.png".
Proof.
  destruct (downloadName_drops_extension "portrait_" "anna.smith" "jpg" "png")
    as (A & B & _); try reflexivity.
  split; [exact A | exact B].
Defined.

Local Close Scope string_scope.

(** ** The selection of the download stage *)

Lemma hasId_In (s : list string) (x : string) : hasId s x = true <-> In x s.
Proof.
  unfold hasId. rewrite existsb_exists. split.
  - intros (y & Hy & E). apply String.eqb_eq in E. subst. exact Hy.
  - intros H. exists x. split; [exact H | apply String.eqb_refl].
Qed.

Lemma hasId_app (s t : list string) (x : string) :
  hasId (s ++ t) x = hasId s x || hasId t x.
Proof. unfold hasId. apply existsb_app. Qed.

Lemma hasId_setDelete (s : list string) (x y : string) :
  hasId (setDelete s x) y = hasId s y && negb (String.eqb y x).
Proof.
  unfold setDelete. induction s as [| z s IH]; [reflexivity|].
  cbn [filter]. destruct (String.eqb z x) eqn:E; cbn [negb].
  - rewrite IH. cbn [hasId existsb]. fold (hasId s y).
    apply String.eqb_eq in E. subst z.
    destruct (String.eqb y x) eqn:F; cbn [negb orb]; [|reflexivity].
    rewrite !andb_false_r. reflexivity.
  - cbn [hasId existsb]. fold (hasId s y). fold (hasId (filter (fun y0 => negb (String.eqb y0 x)) s) y).
    rewrite IH. destruct (String.eqb y z) eqn:F; cbn [orb]; [|reflexivity].
    apply String.eqb_eq in F. subst z. rewrite E. reflexivity.
Qed.

Lemma hasId_setAdd (s : list string) (x y : string) :
  hasId (setAdd s x) y = hasId s y || String.eqb y x.
Proof.
  unfold setAdd. destruct (hasId s x) eqn:E.
  - destruct (String.eqb y x) eqn:F; [|rewrite orb_false_r; reflexivity].
    apply String.eqb_eq in F. subst y. rewrite E. reflexivity.
  - rewrite hasId_app. cbn. rewrite orb_false_r. reflexivity.
Qed.

Lemma setAdd_NoDup (s : list string) (x : string) : NoDup s -> NoDup (setAdd s x).
Proof.
  intros H. unfold setAdd. destruct (hasId s x) eqn:E; [exact H|].
  apply NoDup_app; [exact H | repeat constructor; auto |].
  intros y Hy [<- | []]. apply hasId_In in Hy. congruence.
Qed.

Lemma setDelete_NoDup (s : list string) (x : string) : NoDup s -> NoDup (setDelete s x).
Proof. apply NoDup_filter. Qed.

Lemma newSet_from (l : list string) :
  forall acc, NoDup acc ->
    NoDup (fold_left setAdd l acc) /\
    forall y, hasId (fold_left setAdd l acc) y = hasId acc y || hasId l y.
Proof.
  induction l as [| x l IH]; intros acc Hacc; cbn [fold_left].
  - split; [exact Hacc|]. intros y. rewrite orb_false_r. reflexivity.
  - destruct (IH (setAdd acc x) (setAdd_NoDup acc x Hacc)) as [N M].
    split; [exact N|]. intros y. rewrite M, hasId_setAdd.
    cbn [hasId existsb]. fold (hasId l y). rewrite <- orb_assoc. reflexivity.
Qed.

Lemma newSet_spec (l : list string) :
  NoDup (newSet l) /\ forall y, hasId (newSet l) y = hasId l y.
Proof.
  destruct (newSet_from l [] (NoDup_nil _)) as [N M]. split; [exact N|].
  intros y. unfold newSet. rewrite M. reflexivity.
Qed.

(** X17.  Toggling a record in the selection flips the membership of that
    record and of no other, keeps the selection free of duplicates, and
    changes its size by one; toggling twice gives back the same members. *)
Theorem toggle_flips_membership (selected : list string) (imageId other : string) :
  NoDup selected ->
  hasId (toggleImageSelection selected imageId) imageId
    = negb (hasId selected imageId) /\
  (other <> imageId ->
   hasId (toggleImageSelection selected imageId) other = hasId selected other) /\
  NoDup (toggleImageSelection selected imageId) /\
  length (toggleImageSelection selected imageId)
    = (if hasId selected imageId
       then length selected - 1 else length selected + 1)%nat /\
  hasId (toggleImageSelection (toggleImageSelection selected imageId) imageId) other
    = hasId selected other.
Proof.
  intros Hn.
  assert (A : forall s y, hasId (toggleImageSelection s imageId) y
                          = if String.eqb y imageId then negb (hasId s imageId)
                            else hasId s y).
  { intros s y. unfold toggleImageSelection. destruct (hasId s imageId) eqn:E.
    - rewrite hasId_setDelete. destruct (String.eqb y imageId); cbn [negb];
        [apply andb_false_r | apply andb_true_r].
    - rewrite hasId_setAdd. destruct (String.eqb y imageId) eqn:F;
        [apply orb_true_r | apply orb_false_r]. }
  split; [rewrite A, String.eqb_refl; reflexivity|].
  split; [intros Ho; rewrite A; apply String.eqb_neq in Ho; rewrite Ho; reflexivity|].
  split.
  { unfold toggleImageSelection. destruct (hasId selected imageId);
      [apply setDelete_NoDup | apply setAdd_NoDup]; exact Hn. }
  split.
  { unfold toggleImageSelection. destruct (hasId selected imageId) eqn:E.
    - apply hasId_In in E. unfold setDelete. clear A.
      induction selected as [| z s IH]; [contradiction|].
      inversion Hn as [| ? ? Hz Hs]; subst. cbn [filter length].
      destruct (String.eqb z imageId) eqn:F; cbn [negb].
      + apply String.eqb_eq in F. subst z.
        rewrite forallb_filter_id; [lia|].
        apply forallb_forall. intros y Hy. apply negb_true_iff, String.eqb_neq.
        intros ->. contradiction.
      + destruct E as [-> | E]; [rewrite String.eqb_refl in F; discriminate|].
        cbn [length]. specialize (IH Hs E).
        assert (0 < length s)%nat by (destruct s; [contradiction | cbn; lia]).
        lia.
    - unfold setAdd. rewrite E, length_app. reflexivity. }
  rewrite !A. destruct (String.eqb other imageId) eqn:F.
  - apply String.eqb_eq in F. subst other. rewrite String.eqb_refl. apply negb_involutive.
  - reflexivity.
Qed.

Lemma toggle_flips_membership_witness :
  hasId (toggleImageSelection [sampleId] sampleId) sampleId = false.
Proof.
  apply (toggle_flips_membership [sampleId] sampleId sampleId).
  repeat constructor. intros [].
Defined.

Lemma NoDup_length_newSet (l : list string) : NoDup l -> length (newSet l) = length l.
Proof.
  intros H. destruct (newSet_spec l) as [N M].
  apply Nat.le_antisymm.
  - apply NoDup_incl_length; [exact N|]. intros y Hy.
    apply hasId_In. rewrite <- M. apply hasId_In. exact Hy.
  - apply NoDup_incl_length; [exact H|]. intros y Hy.
    apply hasId_In. rewrite M. apply hasId_In. exact Hy.
Qed.

(** X18.  "Select all" gives either the empty selection or exactly the listed
    records: when the listed records have distinct identifiers, it selects
    them all from any selection of another size, and deselects all once
    all are selected. *)
Theorem select_all_toggles (processedImages : list DownloadItem)
    (selected : list string) (imageId : string) :
  NoDup (map d_id (filter d_isProcessed processedImages)) ->
  let ids := map d_id (filter d_isProcessed processedImages) in
  let all := toggleSelectAll processedImages selected in
  (length selected <> length ids ->
   hasId all imageId = hasId ids imageId /\ NoDup all /\
   toggleSelectAll processedImages all = []) /\
  (length selected = length ids -> all = []).
Proof.
  intros Hn ids all. subst all. unfold toggleSelectAll. fold ids.
  split; intros H.
  - apply Nat.eqb_neq in H. rewrite H.
    destruct (newSet_spec ids) as [N M].
    split; [apply M|]. split; [exact N|].
    rewrite (NoDup_length_newSet ids Hn), Nat.eqb_refl. reflexivity.
  - apply Nat.eqb_eq in H. rewrite H. reflexivity.
Qed.

Lemma select_all_toggles_witness :
  toggleSelectAll [downloadItem (hd sampleRecord (images savedThenUnaccepted))]
    (toggleSelectAll [downloadItem (hd sampleRecord (images savedThenUnaccepted))] [])
  = [].
Proof.
  destruct (select_all_toggles
              [downloadItem (hd sampleRecord (images savedThenUnaccepted))] [] sampleId)
    as (A & _).
  - repeat constructor. intros [].
  - destruct A as (_ & _ & E); [cbn; discriminate | exact E].
Defined.

(** ** What is downloaded *)

Lemma reachable_download_items (s : AppState) (item : DownloadItem) :
  reachable s -> In item (map downloadItem (images s)) ->
  exists u, d_croppedUrl item = Some u /\ truthyString u = true.
Proof.
  intros Hs Hin. apply in_map_iff in Hin. destruct Hin as (img & <- & Hin).
  destruct (reachable_ok s Hs) as [Hi _ _]. rewrite Forall_forall in Hi.
  destruct (Hi img Hin) as [_ C _ _ _ _].
  unfold downloadItem, orUrl. cbn [d_croppedUrl]. rewrite C.
  destruct (croppedUrl img) as [u|]; [|discriminate]. eauto.
Qed.

(** X19.  In every reachable session the download button of a record always
    produces a link: it points at the [croppedUrl] of the first record of
    that identifier and is named after that record's file. *)
Theorem single_download_always_links
    (s : AppState) (img : ProcessedImage) (filePrefix : string) :
  reachable s -> In img (images s) ->
  exists first u,
    find (fun x => String.eqb (id x) (id img)) (images s) = Some first /\
    croppedUrl first = Some u /\
    downloadSingleImage filePrefix (map downloadItem (images s)) (id img)
    = Some (mkDownloadLink u (downloadName filePrefix (name (originalFile first)))).
Proof.
  intros Hs Hin.
  destruct (find (fun x => String.eqb (id x) (id img)) (images s)) as [first|] eqn:Ef.
  2:{ apply (find_none _ _ Ef) in Hin. rewrite String.eqb_refl in Hin. discriminate. }
  destruct (reachable_ok s Hs) as [Hi _ _]. rewrite Forall_forall in Hi.
  pose proof (find_some _ _ Ef) as [Hf _].
  destruct (Hi first Hf) as [_ C _ _ _ _].
  destruct (croppedUrl first) as [u|] eqn:Eu; [|discriminate].
  exists first, u. split; [reflexivity|]. split; [exact Eu|].
  unfold downloadSingleImage.
  assert (F : find (fun d => String.eqb (d_id d) (id img)) (map downloadItem (images s))
              = Some (downloadItem first)).
  { clear Hin Hf Hi. revert Ef. induction (images s) as [| x l IH]; [discriminate|].
    cbn [map find d_id downloadItem]. destruct (String.eqb (id x) (id img)).
    - intros E. injection E as ->. reflexivity.
    - exact IH. }
  rewrite F. unfold downloadItem, orUrl. cbn [d_croppedUrl d_originalName].
  rewrite Eu. cbn [truthyUrl] in *. rewrite C, C. reflexivity.
Qed.

Lemma single_download_always_links_witness :
  exists l, downloadSingleImage "portrait_"%string
              (map downloadItem (images savedThenUnaccepted)) sampleId = Some l /\
            href l = sampleCropUrl.
Proof.
  assert (R : reachable savedThenUnaccepted)
    by (apply run_reachable; repeat constructor).
  destruct (single_download_always_links savedThenUnaccepted
              (hd sampleRecord (images savedThenUnaccepted)) "portrait_"%string R)
    as (first & u & Ef & Eu & El); [left; reflexivity|].
  eexists. split; [exact El|].
  cbn in Ef. injection Ef as <-. cbn in Eu. injection Eu as <-. reflexivity.
Defined.

Lemma exportable_reachable (s : AppState) (img : ProcessedImage) :
  reachable s -> In img (images s) -> exportable img = isEdited img.
Proof.
  intros Hs Hin. destruct (reachable_ok s Hs) as [Hi _ _].
  rewrite Forall_forall in Hi. destruct (Hi img Hin) as [P C U A S Z].
  rewrite exportable_formula, P, C. cbn.
  destruct (isAccepted img); [rewrite A by reflexivity|];
    destruct (isEdited img); reflexivity.
Qed.

(** X20.  In every reachable session the default selection puts every listed
    record into the archive, and every record of the archive is listed and
    has a URL to fetch. *)
Theorem default_selection_archives_listed (s : AppState) :
  reachable s ->
  let items := map downloadItem (images s) in
  downloadSelectedAsZip items (newSet (initialSelection items))
  = filter d_isProcessed items /\
  forall item, In item (downloadSelectedAsZip items (newSet (initialSelection items))) ->
               exists img, In img (images s) /\ item = downloadItem img /\
                           isEdited img = true /\ truthyUrl (d_croppedUrl item) = true.
Proof.
  intros Hs items.
  assert (E : downloadSelectedAsZip items (newSet (initialSelection items))
              = filter d_isProcessed items).
  { unfold downloadSelectedAsZip. apply filter_ext_in. intros item Hin.
    destruct (reachable_download_items s item Hs Hin) as (u & Eu & Tu).
    rewrite Eu. cbn [truthyUrl]. rewrite Tu, andb_true_r.
    destruct (d_isProcessed item) eqn:P; [|reflexivity]. cbn [andb].
    destruct (newSet_spec (initialSelection items)) as [_ M]. rewrite M.
    apply hasId_In. unfold initialSelection. apply in_map. apply filter_In. auto. }
  split; [exact E|]. rewrite E. intros item Hin.
  apply filter_In in Hin. destruct Hin as [Hin P].
  pose proof Hin as Hin'. apply in_map_iff in Hin'. destruct Hin' as (img & <- & Hi).
  exists img. split; [exact Hi|]. split; [reflexivity|].
  destruct (reachable_download_items s _ Hs Hin) as (u & Eu & Tu).
  split; [|rewrite Eu; exact Tu].
  rewrite <- (exportable_reachable s img Hs Hi). unfold exportable.
  rewrite P, Eu. exact Tu.
Qed.

Lemma default_selection_archives_listed_witness :
  downloadSelectedAsZip (map downloadItem (images savedThenUnaccepted))
    (newSet (initialSelection (map downloadItem (images savedThenUnaccepted))))
  = filter d_isProcessed (map downloadItem (images savedThenUnaccepted)).
Proof.
  assert (R : reachable savedThenUnaccepted)
    by (apply run_reachable; repeat constructor).
  destruct (default_selection_archives_listed savedThenUnaccepted R) as (E & _).
  exact E.
Defined.

(** ** The archive *)

Lemma zipEntry_selected (prefix : string) (items : list DownloadItem)
    (selected : list string) (img : DownloadItem) :
  In img (downloadSelectedAsZip items selected) ->
  exists u, d_croppedUrl img = Some u /\ truthyString u = true /\
            zipEntry prefix img = Some (downloadName prefix (d_originalName img), u).
Proof.
  intros H. unfold downloadSelectedAsZip in H. apply filter_In in H.
  destruct H as [_ H]. apply andb_true_iff in H. destruct H as [H _].
  apply andb_true_iff in H. destruct H as [_ H].
  unfold zipEntry. destruct (d_croppedUrl img) as [u|]; [|discriminate].
  cbn [truthyUrl] in H. rewrite H. eauto.
Qed.

(** X21.  For the records that the filter of lines 92-94 selects, the loop of
    lines 103-110 calls [zip.file] once for each, in their order, under
    the download name of its file and with the content of its
    [croppedUrl]: the test of [croppedUrl] inside the loop never skips a
    record.  No record that is unlisted, without a URL or unselected is
    handed to [zip.file]. *)
Theorem zip_calls_follow_selection (prefix : string) (items : list DownloadItem)
    (selected : list string) :
  let selectedImgs := downloadSelectedAsZip items selected in
  map fst (zipCalls prefix selectedImgs)
  = map (fun img => downloadName prefix (d_originalName img)) selectedImgs /\
  map (fun call => Some (snd call)) (zipCalls prefix selectedImgs)
  = map d_croppedUrl selectedImgs /\
  length (zipCalls prefix selectedImgs) = length selectedImgs /\
  forall img, In img selectedImgs ->
              In img items /\ d_isProcessed img = true /\
              truthyUrl (d_croppedUrl img) = true /\
              hasId selected (d_id img) = true.
Proof.
  cbn zeta.
  assert (E : forall l, (forall img, In img l ->
                           In img (downloadSelectedAsZip items selected)) ->
              map fst (zipCalls prefix l)
              = map (fun img => downloadName prefix (d_originalName img)) l /\
              map (fun call => Some (snd call)) (zipCalls prefix l)
              = map d_croppedUrl l /\
              length (zipCalls prefix l) = length l).
  { induction l as [| img l IH]; intros H; [auto|].
    destruct (zipEntry_selected prefix items selected img (H img (or_introl eq_refl)))
      as (u & Eu & _ & Ez).
    destruct IH as (A & B & C); [intros x Hx; apply H; right; exact Hx|].
    unfold zipCalls in *. cbn [flat_map]. rewrite Ez.
    cbn [app map length fst snd]. rewrite A, B, C, Eu. auto. }
  destruct (E (downloadSelectedAsZip items selected) (fun _ H => H)) as (A & B & C).
  split; [exact A|]. split; [exact B|]. split; [exact C|].
  intros img H. unfold downloadSelectedAsZip in H. apply filter_In in H.
  destruct H as [Hin H]. apply andb_true_iff in H. destruct H as [H H3].
  apply andb_true_iff in H. destruct H as [H1 H2]. auto.
Qed.

(** ** The greyscale loop on any array *)

(** X22.  The loop keeps the length of the array, also when it is not a multiple
    of four, and writes bytes only. *)
Theorem greyscale_keeps_length (data : list Z) :
  length (greyscale data) = length data /\
  (Forall isByte data -> Forall isByte (greyscale data)).
Proof.
  induction data as [| a | a b | a b c | a b c d l [IH1 IH2]] using list_ind4;
    cbn [greyscale length].
  - auto.
  - split; [reflexivity|]. intros _. repeat constructor; unfold isByte; lia.
  - split; [reflexivity|]. intros _. repeat constructor; unfold isByte; lia.
  - split; [reflexivity|]. intros _.
    do 3 (constructor; [apply toUint8Clamped_range|]). constructor.
  - split; [rewrite IH1; reflexivity|].
    intros H. inversion H as [| ? ? _ H1]; subst. inversion H1 as [| ? ? _ H2]; subst.
    inversion H2 as [| ? ? _ H3]; subst. inversion H3 as [| ? ? Hd H4]; subst.
    do 3 (constructor; [apply toUint8Clamped_range|]).
    constructor; [exact Hd | apply IH2; exact H4].
Qed.

(** ** The uploader *)

Lemma splice1_length {A : Type} (index : nat) (l : list A) :
  (index < length l)%nat -> S (length (splice1 index l)) = length l.
Proof.
  intros H. unfold splice1. rewrite length_app, length_firstn, length_skipn. lia.
Qed.

Lemma splice1_nth_error {A : Type} (index i : nat) (l : list A) :
  (index < length l)%nat ->
  nth_error (splice1 index l) i
  = if (i <? index)%nat then nth_error l i else nth_error l (S i).
Proof.
  intros H. unfold splice1.
  destruct (i <? index)%nat eqn:E.
  - apply Nat.ltb_lt in E.
    rewrite nth_error_app1 by (rewrite length_firstn; lia).
    rewrite nth_error_firstn. apply Nat.ltb_lt in E. rewrite E. reflexivity.
  - apply Nat.ltb_ge in E.
    rewrite nth_error_app2 by (rewrite length_firstn; lia).
    rewrite length_firstn, nth_error_skipn.
    f_equal. lia.
Qed.

(** X23.  Removing a file from the uploader's list drops exactly the file at
    that index, keeping the others in order, and hands the remaining files
    to the page again: a non-empty rest goes to [processImages] a second
    time, an empty one gives the error "No valid files selected". *)
Theorem removeFile_resubmits_rest (index : nat) (st : UploaderState) :
  (index < length (up_files st))%nat ->
  let st' := fst (removeFile index st) in
  S (length (up_files st')) = length (up_files st) /\
  (forall i, nth_error (up_files st') i
             = if (i <? index)%nat then nth_error (up_files st) i
               else nth_error (up_files st) (S i)) /\
  snd (removeFile index st) = Some (up_files st') /\
  (up_files st' <> [] -> handleImageUpload (up_files st') = inr (up_files st')) /\
  (up_files st' = [] ->
   handleImageUpload (up_files st') = inl "No valid files selected"%string).
Proof.
  intros H. cbn zeta. cbn [removeFile fst snd up_files].
  split; [apply splice1_length; exact H|].
  split; [intros i; apply splice1_nth_error; exact H|].
  split; [reflexivity|].
  split.
  - destruct (splice1 index (up_files st)); [contradiction | reflexivity].
  - intros ->. reflexivity.
Qed.

Lemma removeFile_resubmits_rest_witness :
  snd (removeFile 0 (mkUploaderState [sampleFile; mkFile "second.png"%string] [] 100))
  = Some [mkFile "second.png"%string].
Proof.
  destruct (removeFile_resubmits_rest 0
              (mkUploaderState [sampleFile; mkFile "second.png"%string] [] 100))
    as (_ & _ & E & _); [cbn; lia|].
  exact E.
Defined.

(** X24.  A drop replaces the file list of the uploader by the accepted files
    and hands exactly those to the page, starting the progress anew; a drop
    without an accepted file keeps the list and calls nobody.  The errors
    shown are those of this drop alone, one for each rejected file. *)
Theorem onDrop_replaces_files (maxFileSize : N) (acceptedFiles : list File)
    (rejectedFiles : list Rejection) (st : UploaderState) :
  let st' := fst (onDrop maxFileSize acceptedFiles rejectedFiles st) in
  let called := snd (onDrop maxFileSize acceptedFiles rejectedFiles st) in
  length (up_errors st') = length rejectedFiles /\
  up_errors st' = up_errors (fst (onDrop maxFileSize acceptedFiles rejectedFiles
                                    (mkUploaderState [] [] 0))) /\
  (acceptedFiles = [] ->
   up_files st' = up_files st /\ up_progress st' = up_progress st /\ called = None) /\
  (acceptedFiles <> [] ->
   up_files st' = acceptedFiles /\ up_progress st' = 0%Z /\
   called = Some acceptedFiles /\
   handleImageUpload acceptedFiles = inr acceptedFiles).
Proof.
  cbn zeta. unfold onDrop.
  destruct acceptedFiles as [| f l]; cbn [fst snd up_errors up_files up_progress];
    (split; [destruct rejectedFiles; [reflexivity | apply length_map]|]);
    (split; [reflexivity|]); split; intros H; try contradiction; try discriminate;
    repeat split.
Qed.

(** X25.  The simulated upload progress moves from 0 in steps of 10 up to 100,
    which it reaches at the tenth tick and keeps. *)
Theorem progress_reaches_100 (n : nat) :
  Nat.iter n progressTick 0%Z = Z.min (10 * Z.of_nat n) 100.
Proof.
  induction n as [| n IH]; [reflexivity|].
  change (Nat.iter (S n) progressTick 0%Z)
    with (progressTick (Nat.iter n progressTick 0%Z)).
  rewrite IH. unfold progressTick.
  destruct (100 <=? Z.min (10 * Z.of_nat n) 100)%Z eqn:E.
  - apply Z.leb_le in E. lia.
  - apply Z.leb_gt in E. lia.
Qed.

(** ** The content of a record and the pan of the editor *)

Lemma facePosition_finite (x y w h z : Q) :
  finitePair (facePosition (mkFaceRect (Num x) (Num y) (Num w) (Num h)) (Num z)).
Proof.
  unfold facePosition, finitePair. cbn [faceX faceY faceWidth faceHeight fst snd].
  jnorm. cbn. auto.
Qed.

Lemma detect_position_finite (detected : bool) (w h : Z) :
  finitePair (fr_position (detectFaceAndCrop detected (JS.ofZ w) (JS.ofZ h))).
Proof.
  unfold detectFaceAndCrop, detectTry, JS.ofZ. cbn [fr_position].
  destruct (estimate_finite (inject_Z w) (inject_Z h))
    as (x' & y' & w' & h' & z & -> & -> & _).
  apply facePosition_finite.
Qed.

Lemma finite_sub (a : Q) (b : num) : JS.finite b -> JS.finite (JS.sub (Num a) b).
Proof. destruct b; cbn; auto. Qed.

Lemma handleImageEdit_content images imageId url c :
  c_croppedUrl c = Some url -> truthyString url = true ->
  finitePair (c_position c) ->
  Forall contentOk images ->
  Forall contentOk
    (handleImageEdit images imageId (urlOr (c_croppedUrl c) url) (Some c)).
Proof.
  intros Ec Hu Hp H. unfold handleImageEdit. apply Forall_map.
  eapply Forall_impl; [|exact H]. intros img Hc.
  destruct (String.eqb (id img) imageId); [|exact Hc].
  unfold contentOk. cbn [crop croppedUrl]. rewrite Ec. cbn [urlOr truthyUrl].
  rewrite Hu. auto.
Qed.

Lemma handleAcceptImage_content images sel imageId accepted :
  Forall contentOk images ->
  Forall contentOk (handleAcceptImage images sel imageId accepted).
Proof.
  intros H. unfold handleAcceptImage. apply Forall_map.
  eapply Forall_impl; [|exact H]. intros img Hc.
  destruct (String.eqb (id img) imageId); [|exact Hc].
  destruct (_ && _); exact Hc.
Qed.

Lemma markProcessed_content (img : ProcessedImage) :
  freshOk img -> contentOk (markProcessed img).
Proof.
  intros (_ & _ & _ & Hc). unfold contentOk. cbn [markProcessed crop croppedUrl previewUrl].
  rewrite Hc. reflexivity.
Qed.

Lemma step_preserves_view (s : AppState) (ev : Event) :
  validEvent ev -> viewOk s -> viewOk (step s ev).
Proof.
  intros Hv [Hi Hp Hpos Hds].
  destruct ev; cbn [step validEvent] in *;
    try (constructor; assumption).
  - destruct files as [| f files]; [constructor; assumption|].
    constructor; cbn [images pending editor]; try assumption.
    apply Forall_app. split; [assumption|]. constructor; [|constructor].
    split; cbn [capturedImages newImages]; [assumption|].
    apply Forall_map. eapply Forall_impl; [|exact Hv].
    intros entry. apply newImage_fresh.
  - destruct (nth_error (pending s) k) as [p|] eqn:Ek; [|constructor; assumption].
    apply nth_error_In in Ek. rewrite Forall_forall in Hp.
    destruct (Hp p Ek) as [Hc Hn].
    constructor; cbn [images pending editor]; try assumption.
    + apply Forall_app. split; [assumption|].
      apply Forall_map. eapply Forall_impl; [|exact Hn]. apply markProcessed_content.
    + apply removeNth_Forall. apply Forall_forall. exact Hp.
  - constructor; cbn; try assumption.
    apply Forall_forall. intros img Hin. apply filter_In in Hin.
    rewrite Forall_forall in Hi. apply Hi. tauto.
  - constructor; cbn; try assumption. apply handleAcceptImage_content. assumption.
  - constructor; cbn [images pending editor withEditor]; try assumption.
    + unfold selectionEffect.
      destruct (findSelected (images s) (selectedImageId s)) as [img|] eqn:Ef;
        [|assumption].
      destruct (crop img) as [c|] eqn:Ec; cbn [position]; [|split; exact I].
      apply findSelected_In in Ef. rewrite Forall_forall in Hi.
      specialize (Hi img Ef). unfold contentOk in Hi. rewrite Ec in Hi. tauto.
    + unfold selectionEffect.
      destruct (findSelected (images s) (selectedImageId s)) as [img|]; [|assumption].
      destruct (crop img); assumption.
  - constructor; cbn [images pending editor withEditor]; try assumption;
      destruct target as [| | [| | w h]];
      cbn [runDetectFaceAndCrop stateOf setIsDetecting position dragStart];
      try assumption.
    apply detect_position_finite.
  - constructor; cbn [images pending editor withEditor]; try assumption.
    destruct Hpos as [P1 P2].
    split; cbn [handleMouseDown dragStart fst snd]; apply finite_sub; assumption.
  - constructor; cbn [images pending editor withEditor]; try assumption;
      unfold handleMouseMove; destruct (negb _); try assumption.
    destruct Hds as [D1 D2].
    split; cbn [setPosition position fst snd]; apply finite_sub; assumption.
  - constructor; cbn [images pending editor withEditor resetPosition position dragStart];
      try assumption. split; exact I.
  - destruct (selectedImageId s) as [sel|] eqn:Es; [|constructor; assumption].
    destruct (findSelected (images s) (Some sel)) as [img|] eqn:Ef;
      [|constructor; assumption].
    destruct (truthyString sel); [|constructor; assumption].
    constructor; cbn [images pending editor withImages]; try assumption.
    unfold onImageSave.
    assert (Ec : c_croppedUrl (savedCrop (editor s) blobUrl) = Some blobUrl).
    { unfold savedCrop. destruct (cropRect (editor s)) as [[[x y] w] h]. reflexivity. }
    assert (Ep : c_position (savedCrop (editor s) blobUrl) = position (editor s)).
    { unfold savedCrop. destruct (cropRect (editor s)) as [[[x y] w] h]. reflexivity. }
    replace (urlOr (c_croppedUrl (savedCrop (editor s) blobUrl)) (previewUrl img))
      with (urlOr (c_croppedUrl (savedCrop (editor s) blobUrl)) blobUrl)
      by (rewrite Ec; cbn [urlOr]; rewrite Hv; reflexivity).
    apply handleImageEdit_content; try assumption. rewrite Ep. exact Hpos.
  - constructor; cbn [images pending editor withEditor initialEditor position dragStart];
      try assumption; split; exact I.
Qed.

Lemma reachable_view (s : AppState) : reachable s -> viewOk s.
Proof.
  induction 1 as [| s ev Hs IH Hv].
  - constructor; cbn [initialState images pending editor initialEditor position dragStart];
      try constructor; exact I.
  - apply step_preserves_view; assumption.
Qed.



(** X27.  In every reachable session the zoom is within [10, 200] and the pan is
    a pair of finite numbers, so that a save never calls [drawImage] with
    an infinite or undefined argument. *)
Theorem save_arguments_finite (s : AppState) (W H : Z) :
  reachable s ->
  let g := saveGeometry (JS.ofZ W) (JS.ofZ H) (zoom (editor s)) (position (editor s)) in
  finitePair (position (editor s)) /\
  JS.finite (clampedSourceLeft g) /\ JS.finite (clampedSourceTop g) /\
  JS.finite (clampedSourceWidth g) /\ JS.finite (clampedSourceHeight g) /\
  JS.finite (destLeft g) /\ JS.finite (destTop g) /\
  JS.finite (destWidth g) /\ JS.finite (destHeight g).
Proof.
  intros Hs. cbn zeta.
  destruct (reachable_view s Hs) as [_ _ Hp _].
  destruct (reachable_ok s Hs) as [_ _ Hz].
  split; [exact Hp|].
  destruct (position (editor s)) as [px py]. destruct Hp as [Hx Hy]. cbn [fst snd] in *.
  destruct px as [x| | |]; try contradiction.
  destruct py as [y| | |]; try contradiction.
  destruct (between_Num _ _ _ Hz) as (z & -> & L & U).
  unfold JS.ofZ. rewrite saveGeometry_finite by exact L.
  cbn. tauto.
Qed.

Lemma save_arguments_finite_witness :
  JS.finite (destWidth (saveGeometry (JS.ofZ 1000) (JS.ofZ 1000)
                          (zoom (editor savedThenUnaccepted))
                          (position (editor savedThenUnaccepted)))).
Proof.
  assert (R : reachable savedThenUnaccepted)
    by (apply run_reachable; repeat constructor).
  destruct (save_arguments_finite savedThenUnaccepted 1000 1000 R)
    as (_ & _ & _ & _ & _ & _ & _ & F & _).
  exact F.
Defined.

(** ** Accepted records *)

(** C3, amended.  Accepting a record triggers no save.  In every reachable
    state a record that is accepted is marked edited and carries a
    non-empty [croppedUrl], which is the URL of its saved crop when one was
    saved and the preview placeholder of the upload otherwise, so that an
    accepted record has a crop result only if one was saved.
    [handleAcceptImage] leaves the crop data and the [croppedUrl] of every
    record as they are, and its branch for a record without [croppedUrl] is
    never taken, every record having one. *)
Theorem accepted_record_content (s : AppState) (img : ProcessedImage) :
  reachable s -> In img (images s) -> isAccepted img = true ->
  isEdited img = true /\
  truthyUrl (croppedUrl img) = true /\
  (crop img = None -> croppedUrl img = Some (previewUrl img)) /\
  (forall c, crop img = Some c -> croppedUrl img = c_croppedUrl c) /\
  (forall sel imageId accepted,
      map crop (handleAcceptImage (images s) sel imageId accepted)
      = map crop (images s) /\
      map croppedUrl (handleAcceptImage (images s) sel imageId accepted)
      = map croppedUrl (images s)) /\
  (forall x sel imageId accepted,
      In x (images s) ->
      accepted && negb (truthyUrl (croppedUrl x)) && isSelected sel imageId = false).
Proof.
  intros Hs Hin Ha.
  destruct (reachable_ok s Hs) as [Hi _ _]. rewrite Forall_forall in Hi.
  destruct (reachable_view s Hs) as [Hv _ _ _]. rewrite Forall_forall in Hv.
  destruct (Hi img Hin) as [_ C _ A _ _].
  pose proof (Hv img Hin) as Hc. unfold contentOk in Hc.
  split; [apply A; exact Ha|]. split; [exact C|]. split.
  { intros E. rewrite E in Hc. exact Hc. }
  split.
  { intros c E. rewrite E in Hc. tauto. }
  split; [intros; apply handleAcceptImage_crop|].
  intros x sel imageId accepted Hx. destruct (Hi x Hx) as [_ Cx _ _ _ _].
  rewrite Cx. cbn [negb]. rewrite andb_false_r. reflexivity.
Qed.

Lemma accepted_record_content_witness :
  let img := hd sampleRecord (images acceptedWithoutSave) in
  isAccepted img = true /\ isEdited img = true /\
  croppedUrl img = Some (previewUrl img).
Proof.
  intros img.
  assert (R : reachable acceptedWithoutSave)
    by (apply run_reachable; repeat constructor).
  assert (I : In img (images acceptedWithoutSave)) by (left; reflexivity).
  destruct (accepted_record_content acceptedWithoutSave img R I eq_refl)
    as (E & _ & P & _).
  split; [reflexivity|]. split; [exact E | apply P; reflexivity].
Defined.
